(** * Shipyard Engine: the Edit Resolution & Validation Pipeline

    A shallow embedding of the ticket orchestrator (the v1 script with
    SafeReplace, the generated-edit validator and Sanity Rails) and the
    properties its specification states about it.

    JavaScript strings are sequences of UTF-16 code units; buffers are
    sequences of bytes; dynamically typed ticket data is a small universe
    of JavaScript values; every [throw] is an [Err] of the error monad.
    Logging ([console.log]) has no effect on any result and is left out. *)

From stdpp Require Import base list gmap strings.
From Stdlib Require Import NArith ZArith Lia.
From Stdlib Require Ascii String DecimalString.

Set Default Proof Using "Type".
Set Warnings "-register-all".
Local Open Scope N_scope.

(* ================================================================== *)
(** * Strings *)
(* ================================================================== *)

(** A JavaScript string is a list of UTF-16 code units. *)
Abbreviation code_unit := N.
Abbreviation jsstring := (list N).

(** ASCII literals of the source, as code units. *)
Definition js (s : string) : jsstring :=
  map Ascii.N_of_ascii (String.list_ascii_of_string s).

Module JS.

(** [a === b] on strings. *)
Definition streq (a b : jsstring) : bool := bool_decide (a = b).

(** [s.startsWith(p)] *)
Fixpoint startsWith (s p : jsstring) : bool :=
  match p, s with
  | [], _ => true
  | c :: p', d :: s' => (c =? d) && startsWith s' p'
  | _ :: _, [] => false
  end.

(** [s.endsWith(p)] *)
Definition endsWith (s p : jsstring) : bool :=
  startsWith (reverse s) (reverse p).

(** [s.indexOf(tok)]; [None] is the source's [-1]. *)
Fixpoint indexOf (s tok : jsstring) {struct s} : option nat :=
  if startsWith s tok then Some 0%nat
  else match s with
       | [] => None
       | _ :: s' => S <$> indexOf s' tok
       end.

(** [s.includes(tok)] *)
Definition includes (s tok : jsstring) : bool :=
  bool_decide (is_Some (indexOf s tok)).

(** Scanning for a non-empty separator, left to right, matches not
    overlapping: [skip] counts the units of the current match still to
    be passed over, [cur] is the segment being read (reversed). *)
Fixpoint split_go (sep : jsstring) (skip : nat) (cur s : jsstring)
  : list jsstring :=
  match s with
  | [] => [reverse cur]
  | c :: s' =>
      match skip with
      | S k => split_go sep k cur s'
      | O =>
          if startsWith s sep
          then reverse cur :: split_go sep (length sep - 1) [] s'
          else split_go sep 0 (c :: cur) s'
      end
  end.

(** [s.split(sep)]; an empty separator splits between all code units. *)
Definition split (s sep : jsstring) : list jsstring :=
  match sep with
  | [] => map (λ c, [c]) s
  | _ :: _ => split_go sep 0 [] s
  end.

(** [segments.join(sep)] *)
Fixpoint join (sep : jsstring) (segments : list jsstring) : jsstring :=
  match segments with
  | [] => []
  | [x] => x
  | x :: rest => x ++ sep ++ join sep rest
  end.

(** White space and line terminators, as [String.prototype.trim] sees
    them. *)
Definition isWhiteSpace (c : code_unit) : bool :=
  ((9 <=? c) && (c <=? 13)) || (c =? 32) || (c =? 160) || (c =? 0x1680)
  || ((0x2000 <=? c) && (c <=? 0x200A)) || (c =? 0x2028) || (c =? 0x2029)
  || (c =? 0x202F) || (c =? 0x205F) || (c =? 0x3000) || (c =? 0xFEFF).

Fixpoint trimStart (s : jsstring) : jsstring :=
  match s with
  | [] => []
  | c :: s' => if isWhiteSpace c then trimStart s' else s
  end.

(** [s.trim()] *)
Definition trim (s : jsstring) : jsstring :=
  reverse (trimStart (reverse (trimStart s))).

(** [s.replace(/^\.\//, "")]: one leading [./] is removed. *)
Definition stripDotSlash (s : jsstring) : jsstring :=
  if startsWith s (js "./") then drop 2 s else s.

Fixpoint dropSlashes (s : jsstring) : jsstring :=
  match s with
  | [] => []
  | c :: s' => if c =? 47 then dropSlashes s' else s
  end.

(** [s.replace(/\/+$/, "")]: all trailing slashes are removed. *)
Definition stripTrailingSlashes (s : jsstring) : jsstring :=
  reverse (dropSlashes (reverse s)).

(** [arr.includes(x)] / [set.has(x)] for strings. *)
Definition member (x : jsstring) (l : list jsstring) : bool :=
  bool_decide (x ∈ l).

(** [Array.from(new Set(l))]: duplicates are dropped, the first
    occurrence keeps its place. *)
Fixpoint uniq_go (seen l : list jsstring) : list jsstring :=
  match l with
  | [] => []
  | x :: l' =>
      if member x seen then uniq_go seen l' else x :: uniq_go (x :: seen) l'
  end.

Definition uniq (l : list jsstring) : list jsstring := uniq_go [] l.

End JS.

(* ================================================================== *)
(** * [path.posix.normalize] *)
(* ================================================================== *)

(** Node's POSIX [normalize], segment by segment: empty and [.] segments
    are dropped, a [..] segment removes the segment before it unless that
    is itself [..] or there is none, in which case it is kept for a
    relative path and dropped for an absolute one. An empty path is [.];
    a trailing separator is preserved. *)
Module Path.

Definition dot : jsstring := js ".".
Definition dotdot : jsstring := js "..".
Definition slash : jsstring := js "/".

(** One segment against the stack of kept segments (last one first). *)
Definition step (allowAboveRoot : bool) (stack : list jsstring)
    (seg : jsstring) : list jsstring :=
  if JS.streq seg [] || JS.streq seg dot then stack
  else if JS.streq seg dotdot then
    match stack with
    | top :: below =>
        if JS.streq top dotdot
        then (if allowAboveRoot then dotdot :: stack else stack)
        else below
    | [] => if allowAboveRoot then [dotdot] else []
    end
  else seg :: stack.

Definition normalizeString (p : jsstring) (allowAboveRoot : bool)
  : jsstring :=
  JS.join slash
    (reverse (foldl (step allowAboveRoot) [] (JS.split p slash))).

Definition normalize (p : jsstring) : jsstring :=
  match p with
  | [] => dot
  | _ :: _ =>
      let isAbsolute := JS.startsWith p slash in
      let trailingSeparator := JS.endsWith p slash in
      let res := normalizeString p (negb isAbsolute) in
      match res with
      | [] =>
          if isAbsolute then slash
          else if trailingSeparator then js "./" else dot
      | _ :: _ =>
          (if isAbsolute then slash else []) ++ res
          ++ (if trailingSeparator then slash else [])
      end
  end.

End Path.

(* ================================================================== *)
(** * Buffers: UTF-8 and base64 *)
(* ================================================================== *)

(** A [Buffer] is a list of bytes (numbers below 256). The encoders and
    decoders are Node's: they are total, and in particular decoding never
    throws. *)
Module Buffer.

Definition isHighSurrogate (c : code_unit) : bool :=
  (0xD800 <=? c) && (c <=? 0xDBFF).

Definition isLowSurrogate (c : code_unit) : bool :=
  (0xDC00 <=? c) && (c <=? 0xDFFF).

Definition REPLACEMENT : N := 0xFFFD.

(** The UTF-8 bytes of one code point. *)
Definition encodeCodePoint (cp : N) : list N :=
  if cp <? 0x80 then [cp]
  else if cp <? 0x800 then [0xC0 + cp / 64; 0x80 + cp mod 64]
  else if cp <? 0x10000 then
    [0xE0 + cp / 4096; 0x80 + (cp / 64) mod 64; 0x80 + cp mod 64]
  else
    [0xF0 + cp / 262144; 0x80 + (cp / 4096) mod 64;
     0x80 + (cp / 64) mod 64; 0x80 + cp mod 64].

(** [Buffer.from(s, "utf8")]: a surrogate pair is one code point, a lone
    surrogate is written as U+FFFD. *)
Fixpoint fromUtf8 (s : jsstring) : list N :=
  match s with
  | [] => []
  | c :: rest =>
      if isHighSurrogate c then
        match rest with
        | d :: rest' =>
            if isLowSurrogate d
            then encodeCodePoint
                   (0x10000 + (c - 0xD800) * 1024 + (d - 0xDC00))
                 ++ fromUtf8 rest'
            else encodeCodePoint REPLACEMENT ++ fromUtf8 rest
        | [] => encodeCodePoint REPLACEMENT
        end
      else if isLowSurrogate c then
        encodeCodePoint REPLACEMENT ++ fromUtf8 rest
      else encodeCodePoint c ++ fromUtf8 rest
  end.

(** [buffer.length] *)
Definition size (b : list N) : N := N.of_nat (length b).

(** [Buffer.byteLength(text, "utf8")] *)
Definition byteLength (text : jsstring) : N := size (fromUtf8 text).

(** The UTF-16 code units of one code point. *)
Definition utf16 (cp : N) : jsstring :=
  if cp <? 0x10000 then [cp]
  else [0xD800 + (cp - 0x10000) / 1024; 0xDC00 + (cp - 0x10000) mod 1024].

(** Reading a byte when no sequence is pending: what is emitted, and
    the pending sequence if the byte opens one (code point so far,
    continuation bytes still needed, bounds of the next byte). *)
Definition lead (b : N) : jsstring * option (N * N * N * N) :=
  if b <? 0x80 then ([b], None)
  else if (0xC2 <=? b) && (b <=? 0xDF) then
    ([], Some (b - 0xC0, 1, 0x80, 0xBF))
  else if (0xE0 <=? b) && (b <=? 0xEF) then
    ([], Some (b - 0xE0, 2,
               if b =? 0xE0 then 0xA0 else 0x80,
               if b =? 0xED then 0x9F else 0xBF))
  else if (0xF0 <=? b) && (b <=? 0xF4) then
    ([], Some (b - 0xF0, 3,
               if b =? 0xF0 then 0x90 else 0x80,
               if b =? 0xF4 then 0x8F else 0xBF))
  else ([REPLACEMENT], None).

Fixpoint decode (pending : option (N * N * N * N)) (b : list N)
  : jsstring :=
  match b with
  | [] => match pending with None => [] | Some _ => [REPLACEMENT] end
  | x :: b' =>
      match pending with
      | None => let '(out, p) := lead x in out ++ decode p b'
      | Some (cp, needed, lower, upper) =>
          if (lower <=? x) && (x <=? upper) then
            let cp' := cp * 64 + x mod 64 in
            if needed =? 1 then utf16 cp' ++ decode None b'
            else decode (Some (cp', needed - 1, 0x80, 0xBF)) b'
          else
            let '(out, p) := lead x in
            REPLACEMENT :: out ++ decode p b'
      end
  end.

(** [buffer.toString("utf8")]: ill-formed sequences decode to U+FFFD. *)
Definition toUtf8 (b : list N) : jsstring := decode None b.

(** The base64 digit of a sextet. *)
Definition digit (v : N) : code_unit :=
  if v <? 26 then 65 + v
  else if v <? 52 then 97 + (v - 26)
  else if v <? 62 then 48 + (v - 52)
  else if v =? 62 then 43
  else 47.

Definition PAD : code_unit := 61.

(** [buffer.toString("base64")] *)
Fixpoint toBase64 (b : list N) : jsstring :=
  match b with
  | [] => []
  | [x] => [digit (x / 4); digit (x mod 4 * 16); PAD; PAD]
  | [x; y] =>
      [digit (x / 4); digit (x mod 4 * 16 + y / 16);
       digit (y mod 16 * 4); PAD]
  | x :: y :: z :: rest =>
      [digit (x / 4); digit (x mod 4 * 16 + y / 16);
       digit (y mod 16 * 4 + z / 64); digit (z mod 64)]
      ++ toBase64 rest
  end.

(** The decoder reads each 16-bit unit of the string through
    [uint8_t]: only the low byte of a code unit counts. *)
Definition lowByte (c : code_unit) : N := c mod 256.

(** The sextet of a base64 digit, looked up by the low byte of the
    unit; the URL-safe digits [-] and [_] are accepted as well. *)
Definition unbase64 (c : code_unit) : option N :=
  let b := lowByte c in
  if (65 <=? b) && (b <=? 90) then Some (b - 65)
  else if (97 <=? b) && (b <=? 122) then Some (b - 71)
  else if (48 <=? b) && (b <=? 57) then Some (b + 4)
  else if (b =? 43) || (b =? 45) then Some 62
  else if (b =? 47) || (b =? 95) then Some 63
  else None.

(** The sextets read from a string: units whose low byte is no base64
    digit are passed over, the first unit whose low byte is [=] ends
    the reading. *)
Fixpoint sextets (s : jsstring) : list N :=
  match s with
  | [] => []
  | c :: s' =>
      if lowByte c =? PAD then []
      else match unbase64 c with
           | Some v => v :: sextets s'
           | None => sextets s'
           end
  end.

(** Four sextets give three bytes; a last group of three gives two, of
    two gives one, and a single left-over sextet none. *)
Fixpoint unpack (l : list N) : list N :=
  match l with
  | a :: b :: c :: d :: rest =>
      [a * 4 + b / 16; b mod 16 * 16 + c / 4; c mod 4 * 64 + d]
      ++ unpack rest
  | [a; b; c] => [a * 4 + b / 16; b mod 16 * 16 + c / 4]
  | [a; b] => [a * 4 + b / 16]
  | _ => []
  end.

(** [Buffer.from(s, "base64")]. It has no failure case: whatever the
    string, a (possibly empty) buffer comes back. *)
Definition fromBase64 (s : jsstring) : list N := unpack (sextets s).

End Buffer.

(* ================================================================== *)
(** * JavaScript values *)
(* ================================================================== *)

(** What [yaml.load] and [JSON.parse] hand to the pipeline. Of the
    numbers the embedding has those that an integer literal denotes:
    [VNumber n] is the Number value for the integer [n], that is the
    double nearest to [n] (see [Value.nearestDouble]); fractions are
    outside the embedding. *)
Inductive value : Type :=
  | VUndefined
  | VNull
  | VBool (b : bool)
  | VNumber (n : Z)
  | VString (s : jsstring)
  | VArray (items : list value)
  | VObject (fields : list (jsstring * value)).

Module Value.

(** [!!v] *)
Definition truthy (v : value) : bool :=
  match v with
  | VUndefined | VNull => false
  | VBool b => b
  | VNumber n => negb (n =? 0)%Z
  | VString s => negb (JS.streq s [])
  | VArray _ | VObject _ => true
  end.

(** [typeof v === "object"] *)
Definition isObject (v : value) : bool :=
  match v with
  | VNull | VArray _ | VObject _ => true
  | _ => false
  end.

Fixpoint lookup (key : jsstring) (fields : list (jsstring * value))
  : value :=
  match fields with
  | [] => VUndefined
  | (k, v) :: rest => if JS.streq k key then v else lookup key rest
  end.

(** [v.key], for the keys the pipeline reads ([path], [replace], [find],
    [target], ...). On an array or a primitive none of these keys holds
    a string, an array or a truthy preset, so for every test the source
    makes on the answer it is as good as [undefined]. *)
Definition get (v : value) (key : string) : value :=
  match v with
  | VObject fields => lookup (js key) fields
  | _ => VUndefined
  end.

(** [{ ...v, key: x }] *)
Fixpoint update (key : jsstring) (x : value)
    (fields : list (jsstring * value)) : list (jsstring * value) :=
  match fields with
  | [] => [(key, x)]
  | (k, v) :: rest =>
      if JS.streq k key then (k, x) :: rest
      else (k, v) :: update key x rest
  end.

Definition decimal (n : Z) : jsstring :=
  js (DecimalString.NilZero.string_of_int (Z.to_int n)).

Local Open Scope Z_scope.

(** The unit in the last place of a magnitude: the doubles from
    [2^(52+e)] up to [2^(53+e)] are the multiples of [2^e], and below
    [2^53] every integer is a double. *)
Definition ulp (a : Z) : Z := 2 ^ Z.max 0 (Z.log2 a - 52).

(** The double nearest to the magnitude [a], ties to the even
    significand; [None] is an infinity. *)
Definition nearestDouble (a : Z) : option Z :=
  let u := ulp a in
  let q := a / u in
  let r := a mod u in
  let q' := if (u <? 2 * r) || ((u =? 2 * r) && Z.odd q) then q + 1
            else q in
  if 2 ^ 1024 <=? q' * u then None else Some (q' * u).

(** The shortest decimal that reads back as the double [v], for [v] from
    [2^53] on: the digits [s] and the number [p] of zeros after them.
    [lo2] and [hi2] are twice the bounds of the numbers that round to
    [v], which belong to them when [closed]. The search is for the
    largest power of ten with a multiple between the bounds; of two
    such multiples the one nearer to [v] is taken. *)
Fixpoint shortest (v lo2 hi2 : Z) (closed : bool) (p : nat) : Z * nat :=
  let m := 10 ^ Z.of_nat p in
  let c := v / m in
  let fits := λ x : Z,
    if closed then (lo2 <=? 2 * x) && (2 * x <=? hi2)
    else (lo2 <? 2 * x) && (2 * x <? hi2) in
  let down := c * m in
  let up := (c + 1) * m in
  match fits down, fits up with
  | true, true =>
      if (v - down <? up - v) || ((v - down =? up - v) && Z.even c)
      then (c, p) else (c + 1, p)
  | true, false => (c, p)
  | false, true => (c + 1, p)
  | false, false =>
      match p with
      | O => (v, O)
      | S p' => shortest v lo2 hi2 closed p'
      end
  end.

(** [Number::toString] of a double [v] that is a positive integer:
    plain digits up to 21 of them, the exponent form beyond. *)
Definition printDouble (v : Z) : jsstring :=
  if v <? 2 ^ 53 then decimal v
  else
    let u := ulp v in
    let q := v / u in
    let below := if q =? 2 ^ 52 then u / 2 else u in
    let '(s, p) :=
      shortest v (2 * v - below) (2 * v + u) (Z.even q)
        (Z.to_nat ((Z.log2 v + 2) / 3)) in
    let digits := decimal s in
    let n := (length digits + p)%nat in
    if bool_decide (n ≤ 21)%nat then digits ++ replicate p 48%N
    else
      match digits with
      | [] => []
      | [d] => d :: js "e+" ++ decimal (Z.of_nat n - 1)
      | d :: more =>
          d :: js "." ++ more ++ js "e+" ++ decimal (Z.of_nat n - 1)
      end.

(** [String(n)] for the Number value for the integer [n]. *)
Definition numberToString (n : Z) : jsstring :=
  if n =? 0 then js "0"
  else
    (if n <? 0 then js "-" else [])
    ++ match nearestDouble (Z.abs n) with
       | None => js "Infinity"
       | Some v => printDouble v
       end.

Local Close Scope Z_scope.

(** [String(v)] *)
Fixpoint toString (v : value) : jsstring :=
  match v with
  | VUndefined => js "undefined"
  | VNull => js "null"
  | VBool true => js "true"
  | VBool false => js "false"
  | VNumber n => numberToString n
  | VString s => s
  | VArray items =>
      JS.join (js ",")
        (map (λ x, match x with
                   | VUndefined | VNull => []
                   | _ => toString x
                   end) items)
  | VObject _ => js "[object Object]"
  end.

(** [v || ""] *)
Definition orEmpty (v : value) : value :=
  if truthy v then v else VString [].

(** [String(v || "").trim()] *)
Definition trimmed (v : value) : jsstring :=
  JS.trim (toString (orEmpty v)).

End Value.

(* ================================================================== *)
(** * Errors *)
(* ================================================================== *)

(** One constructor per [throw] of the pipeline, named after the error
    taxonomy; the comment gives the message of the source. *)
Inductive error : Type :=
  (* parseTicket *)
  | TicketParseError                    (* Ticket YAML did not produce an object. *)
  | TicketFieldError (key : jsstring)   (* Ticket missing required field: key *)
  | ScopeShapeError                     (* Ticket scope must be a non-empty array. *)
  | ScopeEntryError                     (* Ticket scope entries must be non-empty strings. *)
  | ScopeEscapeError (entry : jsstring) (* Scope path escapes repository: entry *)
  | GuardrailsError                     (* Ticket guardrails must be an array when provided. *)
  (* validateModelFiles *)
  | NoFilesError                        (* JSON response must include at least one file. *)
  | TooManyFilesError                   (* Refusing to modify more than 5 files. *)
  | FileEntryError                      (* Each file entry must include 'path' and 'contents_base64'. *)
  | PathEscapeError (p : jsstring)      (* File path escapes repository: p *)
  | ScopeViolationError (p : jsstring)  (* Model attempted to modify path outside scope: p *)
  | EncodingError (p : jsstring)        (* Failed to decode base64 for p *)
  | EmptyContentError (p : jsstring)    (* Decoded contents empty for p. *)
  | FileTooLargeError (p : jsstring)    (* Decoded contents exceed 204800 bytes for p. *)
  (* buildColorPresetReplacements *)
  | PresetTargetMissingError            (* color_preset requires a 'target' color. *)
  | InvalidPresetTargetError            (* color_preset target must be one of: ... *)
  | InvalidPresetKindError              (* color_preset kind must be one of: ... *)
  | InvalidPresetShadeError             (* color_preset shades must be within: ... *)
  (* safeReplace *)
  | NoReplacementsError                 (* SafeReplace requires at least one replacement entry. *)
  | DirectivePathError                  (* SafeReplace entries require a 'path' string. *)
  | DirectiveEscapeError (p : jsstring) (* SafeReplace path escapes repository: p *)
  | DirectiveScopeError (p : jsstring)  (* SafeReplace path outside scope: p *)
  | ScopeFileMissingError (p : jsstring)(* SafeReplace path not found in scope files: p *)
  | RuleObjectError                     (* SafeReplace replacements require a replacement object. *)
  | RuleReplaceError                    (* SafeReplace replacements require a 'replace' string. *)
  | RuleFindAnyError                    (* SafeReplace replacements require non-empty 'find_any' strings. *)
  | RuleFindError                       (* SafeReplace replacements require either 'find' or 'find_any'. *)
  (* runSanityRails *)
  | SanityRailsError.                   (* SanityRails failure *)

(** A call either returns or throws. *)
Inductive result (A : Type) : Type :=
  | Ok (a : A)
  | Err (e : error).

Arguments Ok {A} a.
Arguments Err {A} e.

#[export] Instance result_ret : MRet result := @Ok.

#[export] Instance result_bind : MBind result := λ A B k m,
  match m with
  | Ok a => k a
  | Err e => Err e
  end.

(** [if (cond) throw e;] *)
Definition throwIf (cond : bool) (e : error) : result unit :=
  if cond then Err e else Ok ().

(** [l.map(f)] where [f] may throw: the first throw ends the traversal. *)
Fixpoint traverse {A B : Type} (f : A → result B) (l : list A)
  : result (list B) :=
  match l with
  | [] => Ok []
  | x :: l' => y ← f x; ys ← traverse f l'; Ok (y :: ys)
  end.

(** A loop whose body updates its state and may throw. *)
Fixpoint foldM {S A : Type} (f : S → A → result S) (s : S) (l : list A)
  : result S :=
  match l with
  | [] => Ok s
  | x :: l' => s' ← f s x; foldM f s' l'
  end.

(* ================================================================== *)
(** * Data model *)
(* ================================================================== *)

(** The ticket after parsing: [scope] holds the normalized entries, the
    other fields are kept as they were loaded. *)
Record TicketDocument : Type := mkTicket {
  title : value;
  why : value;
  dod : value;
  scope : list jsstring;
  guardrails : value;
  safe_replace : value;
}.

(** A file of the scope as fetched from the base branch. *)
Record ScopeFile : Type := mkScopeFile {
  sf_path : jsstring;
  sf_content : jsstring;
  sf_sha : jsstring;
}.

(** A validated, decoded edit of one path. *)
Record CandidateFile : Type := mkCandidate {
  path : jsstring;
  contents : jsstring;
  base64 : jsstring;
}.

Definition MAX_FILES : nat := 5.
Definition MAX_FILE_SIZE : N := 200 * 1024.

Definition COLOR_PRESET_COLORS : list jsstring :=
  map js ["red"; "orange"; "pink"; "purple"; "green"]%string.

Definition COLOR_PRESET_KIND_SET : list jsstring :=
  map js ["text"; "hover:text"; "bg"; "hover:bg"; "active:bg";
          "focus-visible:ring"]%string.

Definition COLOR_PRESET_SHADE_SET : list jsstring :=
  map js ["500"; "600"; "700"]%string.

Definition ROOT_LAYOUT_EXPORT_ANCHORS : list jsstring :=
  map js ["export default function RootLayout(";
          "export default RootLayout"]%string.

Definition NOW_PLAYING_EXPORT_ANCHORS : list jsstring :=
  map js ["export default function NowPlaying";
          "export default NowPlaying";
          "export default memo(NowPlaying)"]%string.

(* ================================================================== *)
(** * parseTicket *)
(* ================================================================== *)

(** One entry of [ticket.scope] through the [map] callback of
    [parseTicket]. *)
Definition normalizeScopeEntry (entry : value) : result jsstring :=
  match entry with
  | VString e =>
      let trimmed := JS.trim e in
      if JS.streq trimmed [] then Err ScopeEntryError
      else
        let isDirectory := JS.endsWith trimmed Path.slash in
        let normalized :=
          Path.normalize
            (if isDirectory then JS.stripTrailingSlashes trimmed
             else trimmed) in
        if JS.startsWith normalized (js "../") then Err (ScopeEscapeError e)
        else
          let finalPath := JS.stripDotSlash normalized in
          Ok (if isDirectory then finalPath ++ Path.slash else finalPath)
  | _ => Err ScopeEntryError
  end.

Definition requiredKeys : list string :=
  ["title"; "why"; "scope"; "dod"]%string.

(** [parseTicket] from the value [yaml.load] returned on: locating the
    block in the document and decoding it are the YAML collaborator's. *)
Definition parseTicket (ticket : value) : result TicketDocument :=
  throwIf (negb (Value.truthy ticket) || negb (Value.isObject ticket))
    TicketParseError;;
  foldM (λ _ key,
           throwIf (negb (Value.truthy (Value.get ticket key)))
             (TicketFieldError (js key)))
    () requiredKeys;;
  match Value.get ticket "scope" with
  | VArray (e :: es) =>
      scope ← traverse normalizeScopeEntry (e :: es);
      let guardrails := Value.get ticket "guardrails" in
      throwIf (Value.truthy guardrails
               && negb (match guardrails with VArray _ => true | _ => false end))
        GuardrailsError;;
      Ok {| title := Value.get ticket "title";
            why := Value.get ticket "why";
            dod := Value.get ticket "dod";
            scope := scope;
            guardrails := guardrails;
            safe_replace := Value.get ticket "safe_replace" |}
  | _ => Err ScopeShapeError
  end.

(* ================================================================== *)
(** * ScopeGuard: the containment predicate *)
(* ================================================================== *)

(** [scope.map((scopePath) => scopePath.endsWith("/") ? scopePath :
    `${scopePath}`)] *)
Definition normalizedScope (scope : list jsstring) : list jsstring :=
  map (λ scopePath,
         if JS.endsWith scopePath Path.slash then scopePath
         else scopePath ++ [])
    scope.

(** The callback of [normalizedScope.some(...)]. *)
Definition containedBy (normalizedPath scopeEntry : jsstring) : bool :=
  if JS.endsWith scopeEntry Path.slash
  then JS.startsWith normalizedPath scopeEntry
  else JS.streq normalizedPath scopeEntry
       || JS.startsWith normalizedPath (scopeEntry ++ Path.slash).

(** [isWithinScope], written out twice in the source with the same text:
    in [validateModelFiles] and in [safeReplace]. *)
Definition isWithinScope (scope : list jsstring) (normalizedPath : jsstring)
  : bool :=
  existsb (containedBy normalizedPath) (normalizedScope scope).

(* ================================================================== *)
(** * Generated-edit validator *)
(* ================================================================== *)

(** The callback of [modelFiles.map(...)]. [Buffer.from] cannot throw on
    a string, so the [catch] around it is never entered. *)
Definition validateModelFile (scope : list jsstring) (file : value)
  : result CandidateFile :=
  match Value.truthy file, Value.get file "path",
        Value.get file "contents_base64" with
  | true, VString file_path, VString contents_base64 =>
      let normalizedPath :=
        Path.normalize (JS.stripDotSlash file_path) in
      throwIf (JS.startsWith normalizedPath (js "../"))
        (PathEscapeError file_path);;
      throwIf (negb (isWithinScope scope normalizedPath))
        (ScopeViolationError file_path);;
      let buffer := Buffer.fromBase64 contents_base64 in
      throwIf (Buffer.size buffer =? 0) (EmptyContentError file_path);;
      throwIf (MAX_FILE_SIZE <? Buffer.size buffer)
        (FileTooLargeError file_path);;
      Ok {| path := normalizedPath;
            contents := Buffer.toUtf8 buffer;
            base64 := contents_base64 |}
  | _, _, _ => Err FileEntryError
  end.

Definition validateModelFiles (modelFiles : value) (scope : list jsstring)
  : result (list CandidateFile) :=
  match modelFiles with
  | VArray (f :: fs) =>
      throwIf (bool_decide (MAX_FILES < length (f :: fs))%nat)
        TooManyFilesError;;
      traverse (validateModelFile scope) (f :: fs)
  | _ => Err NoFilesError
  end.

(* ================================================================== *)
(** * Color presets *)
(* ================================================================== *)

(** [`${kind}-${color}-${shade}`] *)
Definition colorToken (kind color shade : jsstring) : jsstring :=
  kind ++ js "-" ++ color ++ js "-" ++ shade.

(** [{ find_any, replace }] *)
Definition findAnyRule (find_any : list jsstring) (replace : jsstring)
  : value :=
  VObject [(js "find_any", VArray (map VString find_any));
           (js "replace", VString replace)].

(** The body of the inner loop: the rule of one (kind, shade) pair. *)
Definition presetRule (target kind : jsstring) (rawShade : value)
  : result value :=
  let shade := Value.trimmed rawShade in
  throwIf (negb (JS.member shade COLOR_PRESET_SHADE_SET))
    InvalidPresetShadeError;;
  let find_any :=
    JS.uniq (map (λ color, colorToken kind color shade)
               COLOR_PRESET_COLORS) in
  let replace := colorToken kind target shade in
  Ok (findAnyRule find_any replace).

(** The body of the outer loop: the rules of one kind, shade by shade. *)
Definition presetKind (target : jsstring) (shades : list value)
    (rawKind : value) : result (list value) :=
  let kind := Value.trimmed rawKind in
  throwIf (negb (JS.member kind COLOR_PRESET_KIND_SET))
    InvalidPresetKindError;;
  traverse (presetRule target kind) shades.

Definition buildColorPresetReplacements (preset : value)
  : result (list value) :=
  if negb (Value.truthy preset) || negb (Value.isObject preset) then Ok []
  else
    let target := Value.trimmed (Value.get preset "target") in
    throwIf (JS.streq target []) PresetTargetMissingError;;
    throwIf (negb (JS.member target COLOR_PRESET_COLORS))
      InvalidPresetTargetError;;
    let kinds :=
      match Value.get preset "kinds" with
      | VArray (k :: ks) => k :: ks
      | _ => [VString (js "text")]
      end in
    let shades :=
      match Value.get preset "shades" with
      | VArray (s :: ss) => s :: ss
      | _ => [VNumber 500]
      end in
    perKind ← traverse (presetKind target shades) kinds;
    Ok (concat perKind).

(** [Array.isArray(v) && v.length > 0] *)
Definition nonEmptyArray (v : value) : bool :=
  match v with
  | VArray (_ :: _) => true
  | _ => false
  end.

(** The callback of [replacements.map(...)] in [applyColorPresets]. *)
Definition applyColorPreset (entry : value) : result value :=
  if negb (Value.truthy entry) || negb (Value.isObject entry) then Ok entry
  else if nonEmptyArray (Value.get entry "replacements") then Ok entry
  else if negb (Value.truthy (Value.get entry "color_preset")) then Ok entry
  else
    generated ← buildColorPresetReplacements (Value.get entry "color_preset");
    match generated, entry with
    | [], _ => Ok entry
    | _ :: _, VObject fields =>
        Ok (VObject (Value.update (js "replacements") (VArray generated)
                       fields))
    | _ :: _, _ => Ok entry
    end.

Definition applyColorPresets (replacements : list value)
  : result (list value) :=
  traverse applyColorPreset replacements.

(* ================================================================== *)
(** * SafeReplace *)
(* ================================================================== *)

(** The variables of the loop over the rules of one directive. *)
Record EditState : Type := mkEdit {
  content : jsstring;
  modified : bool;
  replacementCount : Z;
}.

(** [content = segments.join(replaceValue)] and the bookkeeping after
    it. *)
Definition substitute (st : EditState) (segments : list jsstring)
    (replaceValue : jsstring) : EditState :=
  let occurrences := (Z.of_nat (length segments) - 1)%Z in
  if (0 <? occurrences)%Z then
    {| content := JS.join replaceValue segments;
       modified := true;
       replacementCount := (replacementCount st + occurrences)%Z |}
  else
    {| content := JS.join replaceValue segments;
       modified := modified st;
       replacementCount := replacementCount st |}.

(** [replacement.find_any.map((token) => String(token || "").trim())
    .filter((token) => token.length > 0)] *)
Definition tokenList (find_any : list value) : list jsstring :=
  filter (λ token, token ≠ []) (map Value.trimmed find_any).

(** One turn of the scan for the chosen token; [None] is the initial
    [chosenToken = null], [chosenIndex = Infinity]. *)
Definition chooseStep (content : jsstring)
    (chosen : option (jsstring * nat)) (token : jsstring)
  : option (jsstring * nat) :=
  match JS.indexOf content token with
  | None => chosen
  | Some index =>
      match chosen with
      | None => Some (token, index)
      | Some (_, chosenIndex) =>
          if bool_decide (index < chosenIndex)%nat then Some (token, index)
          else chosen
      end
  end.

Definition chooseToken (content : jsstring) (tokens : list jsstring)
  : option (jsstring * nat) :=
  foldl (chooseStep content) None tokens.

(** The body of the loop over [entry.replacements]. *)
Definition applyReplacement (st : EditState) (replacement : value)
  : result EditState :=
  throwIf (negb (Value.truthy replacement)
           || negb (Value.isObject replacement)) RuleObjectError;;
  match Value.get replacement "replace" with
  | VString replaceValue =>
      match Value.get replacement "find",
            Value.get replacement "find_any" with
      | VString find, _ =>
          let segments := JS.split (content st) find in
          if bool_decide (length segments = 1%nat) then Ok st
          else Ok (substitute st segments replaceValue)
      | _, VArray find_any =>
          let tokens := tokenList find_any in
          throwIf (bool_decide (tokens = [])) RuleFindAnyError;;
          match chooseToken (content st) tokens with
          | Some (chosenToken, _) =>
              if JS.streq chosenToken [] then Ok st
              else
                Ok (substitute st (JS.split (content st) chosenToken)
                      replaceValue)
          | None => Ok st
          end
      | _, _ => Err RuleFindError
      end
  | _ => Err RuleReplaceError
  end.

(** [{ path, contents_base64 }] as pushed onto [files]. *)
Definition editedFile (normalizedPath content : jsstring) : value :=
  VObject [(js "path", VString normalizedPath);
           (js "contents_base64",
            VString (Buffer.toBase64 (Buffer.fromUtf8 content)))].

(** [new Map(scopeFiles.map((file) => [path.posix.normalize(file.path),
    file]))]: of two files with one key the later one stays. *)
Definition scopeMapOf (scopeFiles : list ScopeFile)
  : gmap jsstring ScopeFile :=
  foldl (λ m file, <[Path.normalize (sf_path file) := file]> m) ∅
    scopeFiles.

(** The loop variables as a directive's rules start. *)
Definition initialEdit (originalContent : jsstring) : EditState :=
  {| content := originalContent; modified := false; replacementCount := 0 |}.

(** [if (modified && content !== originalContent) files.push(...)] *)
Definition pushIfChanged (normalizedPath originalContent : jsstring)
    (st : EditState) : option value :=
  if modified st && negb (JS.streq (content st) originalContent)
  then Some (editedFile normalizedPath (content st))
  else None.

(** The body of the loop over the directives: the file to push, if the
    directive changed its content. *)
Definition applyDirective (scope : list jsstring)
    (scopeMap : gmap jsstring ScopeFile) (entry : value)
  : result (option value) :=
  match Value.truthy entry, Value.get entry "path" with
  | true, VString entry_path =>
      let normalizedPath :=
        Path.normalize (JS.stripDotSlash entry_path) in
      throwIf (JS.startsWith normalizedPath (js "../"))
        (DirectiveEscapeError entry_path);;
      throwIf (negb (isWithinScope scope normalizedPath))
        (DirectiveScopeError entry_path);;
      match scopeMap !! normalizedPath with
      | None => Err (ScopeFileMissingError entry_path)
      | Some scopeFile =>
          match Value.get entry "replacements" with
          | VArray (r :: rs) =>
              let originalContent := sf_content scopeFile in
              st ← foldM applyReplacement (initialEdit originalContent)
                     (r :: rs);
              Ok (pushIfChanged normalizedPath originalContent st)
          | _ => Ok None
          end
      end
  | _, _ => Err DirectivePathError
  end.

(** The loop over the directives, [files] growing by [push]. *)
Definition editedFiles (scope : list jsstring)
    (scopeMap : gmap jsstring ScopeFile) (entries : list value)
  : result (list value) :=
  foldM (λ files entry,
           pushed ← applyDirective scope scopeMap entry;
           Ok (files ++ option_list pushed))
    [] entries.

Definition safeReplace (ticket : TicketDocument)
    (scopeFiles : list ScopeFile) : result (list CandidateFile) :=
  match safe_replace ticket with
  | VArray (r :: rs) =>
      expandedReplacements ← applyColorPresets (r :: rs);
      files ← editedFiles (scope ticket) (scopeMapOf scopeFiles)
                expandedReplacements;
      match files with
      | [] => Ok []
      | _ :: _ => validateModelFiles (VArray files) (scope ticket)
      end
  | _ => Err NoReplacementsError
  end.

(* ================================================================== *)
(** * Sanity Rails *)
(* ================================================================== *)

(** One code unit against [SANITY_RAILS_INVALID_CHAR_REGEX],
    [/[\u0000-\u0008\u000B\u000C\u000E-\u001F\u007F\uFFFD]/]. *)
Definition SANITY_RAILS_INVALID_CHAR (c : code_unit) : bool :=
  (c <=? 0x08) || (c =? 0x0B) || (c =? 0x0C)
  || ((0x0E <=? c) && (c <=? 0x1F)) || (c =? 0x7F) || (c =? 0xFFFD).

(** [!size || size > 200000] *)
Definition sizeCheckFails (size : N) : bool :=
  (size =? 0) || (200000 <? size).

(** The body of the loop of [runSanityRails]. *)
Definition sanityCheck (file : CandidateFile) : result unit :=
  let text := contents file in
  let pathName := path file in
  let size := Buffer.byteLength text in
  throwIf (sizeCheckFails size) SanityRailsError;;
  throwIf (existsb SANITY_RAILS_INVALID_CHAR text) SanityRailsError;;
  throwIf (JS.endsWith pathName (js "src/app/layout.tsx")
           && negb (existsb (JS.includes text) ROOT_LAYOUT_EXPORT_ANCHORS))
    SanityRailsError;;
  throwIf (JS.endsWith pathName (js "src/app/components/NowPlaying.tsx")
           && negb (existsb (JS.includes text) NOW_PLAYING_EXPORT_ANCHORS))
    SanityRailsError;;
  Ok ().

Definition runSanityRails (files : list CandidateFile) : result unit :=
  foldM (λ _ file, sanityCheck file) () files.

(* ================================================================== *)
(** * The run, from the parsed ticket to the commit *)
(* ================================================================== *)

(** How the edit stages of [run] end. *)
Inductive outcome : Type :=
  | ExitedEarly                               (* [return] after "exiting early" *)
  | HandedToCommit (files : list CandidateFile) (* on to branch, commit and PR *)
  | Aborted (e : error).                      (* an exception left [run] *)

Section Run.

(** The generative edit source ([callLLM]), and [VERIFY_STRICT]. *)
Variable callLLM :
  TicketDocument → list ScopeFile → result (list CandidateFile).
Variable verifyStrict : bool.

(** Steps 3 and 4 of [run], with what reaches step 5 and later. *)
Definition run (ticket : TicketDocument) (scopeFiles : list ScopeFile)
  : outcome :=
  let edits :=
    if nonEmptyArray (safe_replace ticket) then
      modelFiles ← safeReplace ticket scopeFiles;
      Ok (match modelFiles with
          | [] => None
          | _ :: _ => Some modelFiles
          end)
    else
      modelFiles ← callLLM ticket scopeFiles;
      Ok (Some modelFiles) in
  match edits with
  | Err e => Aborted e
  | Ok None => ExitedEarly
  | Ok (Some modelFiles) =>
      if verifyStrict then
        match runSanityRails modelFiles with
        | Err e => Aborted e
        | Ok _ => HandedToCommit modelFiles
        end
      else HandedToCommit modelFiles
  end.

End Run.

(* ================================================================== *)
(** * Branch names *)
(* ================================================================== *)

Section Slug.

(** [String.prototype.toLowerCase], the case mapping of the platform. *)
Variable toLowerCase : jsstring → jsstring.

(** The class [[a-z0-9]]. *)
Definition isSlugChar (c : code_unit) : bool :=
  ((97 <=? c) && (c <=? 122)) || ((48 <=? c) && (c <=? 57)).

Definition DASH : code_unit := 45.

(** [s.replace(/[^a-z0-9]+/g, "-")]: every maximal run of other units
    becomes one dash; [inRun] tells that such a run is being read. *)
Fixpoint dashRuns (inRun : bool) (s : jsstring) : jsstring :=
  match s with
  | [] => []
  | c :: s' =>
      if isSlugChar c then c :: dashRuns false s'
      else if inRun then dashRuns true s'
      else DASH :: dashRuns true s'
  end.

Fixpoint dropDashes (s : jsstring) : jsstring :=
  match s with
  | [] => []
  | c :: s' => if c =? DASH then dropDashes s' else s
  end.

(** [s.replace(/^-+|-+$/g, "")]: the dashes at both ends are removed. *)
Definition stripDashes (s : jsstring) : jsstring :=
  reverse (dropDashes (reverse (dropDashes s))).

(** [slugify(value)] *)
Definition slugify (value : jsstring) : jsstring :=
  let slug := take 40 (stripDashes (dashRuns false (toLowerCase value))) in
  match slug with
  | [] => js "ticket"
  | _ :: _ => slug
  end.

End Slug.

(* ================================================================== *)
(** * Fetching the scope *)
(* ================================================================== *)

(** What [octokit.repos.getContent] answers for one path of the base
    branch: a rejection with its status, a directory listing, or the data
    of a file. *)
Inductive contentResponse : Type :=
  | Rejected (status : N)
  | Listing
  | FileData (content encoding sha : jsstring).

(** The [throw]s of [fetchScopeFiles]. *)
Inductive fetchError : Type :=
  | ScopeIsDirectoryError (scopePath : jsstring) (* Scope path is a directory, expected file: scopePath *)
  | ScopeNotFoundError (scopePath : jsstring)    (* Scope path not found in base branch: scopePath *)
  | RequestError (status : N)                    (* the rejection, thrown again *)
  | UnexpectedEncodingError (scopePath encoding : jsstring). (* Unexpected encoding for scopePath: encoding *)

Section Fetch.

(** The content-fetch collaborator, at the base branch of the run. *)
Variable getContent : jsstring → contentResponse.

(** The body of the loop of [fetchScopeFiles]. *)
Definition fetchScopeFile (scopePath : jsstring) : fetchError + ScopeFile :=
  if JS.endsWith scopePath Path.slash
  then inl (ScopeIsDirectoryError scopePath)
  else
    match getContent scopePath with
    | Rejected status =>
        if status =? 404 then inl (ScopeNotFoundError scopePath)
        else inl (RequestError status)
    | Listing => inl (ScopeIsDirectoryError scopePath)
    | FileData content encoding sha =>
        if negb (JS.streq encoding (js "base64"))
        then inl (UnexpectedEncodingError scopePath encoding)
        else
          inr {| sf_path := scopePath;
                 sf_content := Buffer.toUtf8 (Buffer.fromBase64 content);
                 sf_sha := sha |}
    end.

(** [fetchScopeFiles]: the files in the order of the scope; the first
    entry that fails ends the loop. *)
Fixpoint fetchScopeFiles (scope : list jsstring)
  : fetchError + list ScopeFile :=
  match scope with
  | [] => inr []
  | scopePath :: rest =>
      match fetchScopeFile scopePath with
      | inl e => inl e
      | inr file =>
          match fetchScopeFiles rest with
          | inl e => inl e
          | inr files => inr (file :: files)
          end
      end
  end.

End Fetch.

(* ================================================================== *)
(** * Committing *)
(* ================================================================== *)

(** One call of [octokit.repos.createOrUpdateFileContents]; [cr_sha] is
    [None] where the source passes [undefined]. *)
Record commitRequest : Type := mkCommitRequest {
  cr_path : jsstring;
  cr_message : jsstring;
  cr_content : jsstring;
  cr_sha : option jsstring;
}.

(** [new Map(scopeFiles.map((file) => [file.path, file.sha]))] *)
Definition shaLookupOf (scopeFiles : list ScopeFile)
  : gmap jsstring jsstring :=
  foldl (λ m file, <[sf_path file := sf_sha file]> m) ∅ scopeFiles.

(** [`shipyard: ${files.map((f) => f.path).join(", ")}`] *)
Definition commitMessage (files : list CandidateFile) : jsstring :=
  js "shipyard: " ++ JS.join (js ", ") (map path files).

(** The requests [commitFiles] sends, one per file, in order. *)
Definition commitFiles (files : list CandidateFile)
    (scopeFiles : list ScopeFile) : list commitRequest :=
  map (λ file,
         {| cr_path := path file;
            cr_message := commitMessage files;
            cr_content := Buffer.toBase64 (Buffer.fromUtf8 (contents file));
            cr_sha := shaLookupOf scopeFiles !! path file |})
    files.

(* ================================================================== *)
(** * Sample inputs *)
(* ================================================================== *)

(** Tickets, rules and files in the shape the README and the tickets of
    the repository give them. *)
Module Sample.

Definition str (s : string) : value := VString (js s).

Definition obj (fields : list (string * value)) : value :=
  VObject (map (λ kv, (js kv.1, kv.2)) fields).

(** [{ find: find, replace: replace }] *)
Definition findRule (find replace : string) : value :=
  obj [("find", str find); ("replace", str replace)]%string.

(** [{ path: path, replacements: rules }] *)
Definition directive (path : string) (rules : list value) : value :=
  obj [("path", str path); ("replacements", VArray rules)]%string.

(** A loaded ticket with the required fields and the given scope. *)
Definition loaded (scope : list string) : value :=
  obj [("title", str "Change header brand color to purple");
       ("why", str "Visual smoke");
       ("scope", VArray (map str scope));
       ("dod", VArray [str "Header link class uses text-purple-500"])
      ]%string.

(** A parsed ticket for the one file [f.ts] with a [safe_replace]
    block. *)
Definition ticket (directives : list value) : TicketDocument :=
  {| title := str "Change header brand color to purple";
     why := str "Visual smoke";
     dod := VArray [str "Header link class uses text-purple-500"];
     scope := [js "f.ts"];
     guardrails := VUndefined;
     safe_replace := VArray directives |}.

Definition scopeFile (path content : string) : ScopeFile :=
  {| sf_path := js path; sf_content := js content; sf_sha := js "3b18e5" |}.

(** [{ target: target, kinds: kinds, shades: shades }] *)
Definition preset (target : jsstring) (kinds shades : list jsstring)
  : value :=
  VObject [(js "target", VString target);
           (js "kinds", VArray (map VString kinds));
           (js "shades", VArray (map VString shades))].

(** [{ path: path, contents_base64: contents }] *)
Definition modelFile (path contents : string) : value :=
  obj [("path", str path); ("contents_base64", str contents)]%string.

End Sample.

(* ================================================================== *)
(** * Facts about the loops *)
(* ================================================================== *)

(** Running a bind whose first part has returned or thrown. *)
Ltac step_bind := cbv beta iota delta [mbind result_bind].

Section Loops.

Context {S A B : Type}.

Lemma foldM_app (f : S → A → result S) (s : S) (l1 l2 : list A) :
  foldM f s (l1 ++ l2) = (s' ← foldM f s l1; foldM f s' l2).
Proof.
  revert s. induction l1 as [|x l1 IH]; intros s; simpl; [done|].
  destruct (f s x) as [s'|e]; simpl; [apply IH | done].
Qed.

(** A traversal that returns has returned on every element. *)
Lemma traverse_Ok (f : A → result B) (l : list A) (ys : list B) :
  traverse f l = Ok ys → Forall2 (λ x y, f x = Ok y) l ys.
Proof.
  revert ys. induction l as [|x l IH]; intros ys; simpl.
  - intros [= <-]. constructor.
  - destruct (f x) as [y|e] eqn:Hx; simpl; [|done].
    destruct (traverse f l) as [ys'|e]; simpl; [|done].
    intros [= <-]. constructor; [done | by apply IH].
Qed.

(** A traversal over elements that all return, returns. *)
Lemma traverse_Forall2 (f : A → result B) (l : list A) (ys : list B) :
  Forall2 (λ x y, f x = Ok y) l ys → traverse f l = Ok ys.
Proof.
  induction 1 as [|x y l ys Hx _ IH]; simpl; [done|].
  by rewrite Hx, IH.
Qed.

(** A traversal throws as soon as one element does. *)
Lemma traverse_Err (f : A → result B) (l : list A) (x : A) (e : error) :
  x ∈ l → f x = Err e → ∃ e', traverse f l = Err e'.
Proof.
  intros Hin Hx. induction l as [|x' l IH]; [by apply elem_of_nil in Hin|].
  simpl. apply elem_of_cons in Hin as [<- | Hin].
  - rewrite Hx. by exists e.
  - destruct (f x') as [y|e1]; simpl; [|by exists e1].
    destruct (IH Hin) as [e2 ->]. by exists e2.
Qed.

End Loops.

(* ================================================================== *)
(** * Facts about strings *)
(* ================================================================== *)

Section StringFacts.

Implicit Types s p t sep : jsstring.

Lemma streq_true s t : JS.streq s t = true ↔ s = t.
Proof. unfold JS.streq. apply bool_decide_eq_true. Qed.

Lemma streq_false s t : JS.streq s t = false ↔ s ≠ t.
Proof. unfold JS.streq. apply bool_decide_eq_false. Qed.

Lemma startsWith_nil s : JS.startsWith s [] = true.
Proof. by destruct s. Qed.

(** [startsWith] is the prefix relation. *)
Lemma startsWith_prefix s p :
  JS.startsWith s p = true ↔ ∃ rest, s = p ++ rest.
Proof.
  revert s. induction p as [|c p IH]; intros s; simpl.
  - rewrite startsWith_nil. split; [intros _; by exists s | done].
  - destruct s as [|d s]; simpl.
    + split; [done | intros [rest Hrest]; discriminate].
    + rewrite andb_true_iff, N.eqb_eq, IH. split.
      * intros [-> [rest ->]]. by exists rest.
      * intros [rest Hrest]. injection Hrest as -> ->. eauto.
Qed.

Lemma startsWith_app s rest : JS.startsWith (s ++ rest) s = true.
Proof. apply startsWith_prefix. eauto. Qed.

(** [endsWith] is the suffix relation. *)
Lemma endsWith_suffix s p :
  JS.endsWith s p = true ↔ ∃ front, s = front ++ p.
Proof.
  unfold JS.endsWith. rewrite startsWith_prefix. split.
  - intros [rest Hrest]. exists (reverse rest).
    apply (inj reverse). by rewrite reverse_app, reverse_involutive.
  - intros [front ->]. exists (reverse front). by rewrite reverse_app.
Qed.

Lemma indexOf_nil s : JS.indexOf s [] = Some 0%nat.
Proof. destruct s; reflexivity. Qed.

Lemma indexOf_unfold s tok :
  JS.indexOf s tok =
    if JS.startsWith s tok then Some 0%nat
    else match s with
         | [] => None
         | _ :: s' => S <$> JS.indexOf s' tok
         end.
Proof. destruct s; reflexivity. Qed.

(** A token that is found is found at a position it occupies. *)
Lemma indexOf_Some s tok i :
  JS.indexOf s tok = Some i → ∃ rest, drop i s = tok ++ rest.
Proof.
  revert i. induction s as [|c s IH]; intros i; rewrite indexOf_unfold;
    destruct (JS.startsWith _ tok) eqn:Hp;
    try (intros [= <-]; by apply startsWith_prefix); try done.
  destruct (JS.indexOf s tok) as [j|] eqn:Hj; [|done].
  intros [= <-]. simpl. by apply IH.
Qed.

(** A token that is not found starts at no position. *)
Lemma indexOf_None s tok :
  JS.indexOf s tok = None ↔ ∀ i, JS.startsWith (drop i s) tok = false.
Proof.
  induction s as [|c s IH]; rewrite indexOf_unfold;
    destruct (JS.startsWith _ tok) eqn:Hp.
  - split; [done|]. intros H. specialize (H 0%nat). rewrite drop_0 in H. congruence.
  - split; [|done]. intros _ i. by rewrite drop_nil.
  - split; [done|]. intros H. specialize (H 0%nat). rewrite drop_0 in H. congruence.
  - destruct (JS.indexOf s tok) as [j|] eqn:Hj; simpl.
    + split; [done|]. intros H.
      assert (Some j = None) as Hn; [|done].
      apply IH. intros i. apply (H (S i)).
    + split; [|done]. intros _ [|i]; [done|]. simpl. by apply IH.
Qed.

Lemma split_go_unfold sep cur c s :
  JS.split_go sep 0 cur (c :: s) =
    if JS.startsWith (c :: s) sep
    then reverse cur :: JS.split_go sep (length sep - 1) [] s
    else JS.split_go sep 0 (c :: cur) s.
Proof. reflexivity. Qed.

(** Nothing is cut out of a string where the separator never starts. *)
Lemma split_go_absent sep cur s :
  (∀ i, JS.startsWith (drop i s) sep = false) →
  JS.split_go sep 0 cur s = [reverse cur ++ s].
Proof.
  revert cur. induction s as [|c s IH]; intros cur Habs.
  - simpl. by rewrite app_nil_r.
  - pose proof (Habs 0%nat) as H0. rewrite drop_0 in H0.
    rewrite split_go_unfold, H0, IH.
    + by rewrite reverse_cons, <- app_assoc.
    + intros i. apply (Habs (S i)).
Qed.

(** [split] on a token that does not occur gives the string back whole. *)
Lemma split_absent s tok :
  JS.indexOf s tok = None → JS.split s tok = [s].
Proof.
  intros Hnone. destruct tok as [|c tok].
  - by rewrite indexOf_nil in Hnone.
  - unfold JS.split. rewrite split_go_absent; [done|].
    by apply indexOf_None.
Qed.

Lemma split_go_nonempty sep skip cur s : JS.split_go sep skip cur s ≠ [].
Proof.
  revert skip cur. induction s as [|c s IH]; intros skip cur; [done|].
  destruct skip as [|k]; [|apply IH].
  rewrite split_go_unfold.
  destruct (JS.startsWith (c :: s) sep); [done | apply IH].
Qed.

(** [split] on a token that occurs cuts the string at least once. *)
Lemma split_go_present sep cur s i :
  JS.indexOf s sep = Some i → sep ≠ [] →
  (2 ≤ length (JS.split_go sep 0 cur s))%nat.
Proof.
  intros Hi Hsep. revert cur i Hi.
  induction s as [|c s IH]; intros cur i; rewrite indexOf_unfold.
  - destruct sep; [done|]. done.
  - rewrite split_go_unfold.
    destruct (JS.startsWith (c :: s) sep) eqn:Hp.
    + intros _. simpl.
      pose proof (split_go_nonempty sep (length sep - 1) [] s) as Hne.
      destruct (JS.split_go sep (length sep - 1) [] s); [done|]. simpl. lia.
    + destruct (JS.indexOf s sep) as [j|] eqn:Hj; [|done].
      intros _. by eapply IH.
Qed.

Lemma split_present s tok i :
  JS.indexOf s tok = Some i → tok ≠ [] →
  (2 ≤ length (JS.split s tok))%nat.
Proof.
  intros Hi Hne. destruct tok as [|c tok]; [done|].
  unfold JS.split. by eapply split_go_present.
Qed.

End StringFacts.

(* ================================================================== *)
(** * ScopeGuard: containment *)
(* ================================================================== *)

Section Containment.

Implicit Types (scope : list jsstring) (p e : jsstring).

Lemma normalizedScope_id scope : normalizedScope scope = scope.
Proof.
  unfold normalizedScope. induction scope as [|e scope IH]; [done|].
  simpl. rewrite IH. destruct (JS.endsWith e Path.slash); [done|].
  by rewrite app_nil_r.
Qed.

(** What one scope entry admits: itself; below a directory entry,
    everything that extends it; below any other entry, everything that
    extends it by a separator. *)
Lemma containedBy_spec p e :
  containedBy p e = true ↔
    p = e
    ∨ (JS.endsWith e Path.slash = true ∧ ∃ rest, rest ≠ [] ∧ p = e ++ rest)
    ∨ (JS.endsWith e Path.slash = false
       ∧ ∃ rest, p = e ++ Path.slash ++ rest).
Proof.
  unfold containedBy. destruct (JS.endsWith e Path.slash) eqn:Hdir.
  - rewrite startsWith_prefix. split.
    + intros [[|c rest] ->].
      * left. by rewrite app_nil_r.
      * right; left. split; [done|]. by exists (c :: rest).
    + intros [-> | [[_ (rest & _ & ->)] | [? _]]]; [|eauto|done].
      exists []. by rewrite app_nil_r.
  - rewrite orb_true_iff, streq_true, startsWith_prefix. split.
    + intros [-> | [rest ->]]; [by left|].
      right; right. split; [done|]. exists rest. by rewrite <- app_assoc.
    + intros [-> | [[? _] | [_ [rest ->]]]]; [by left | done |].
      right. exists rest. by rewrite <- app_assoc.
Qed.

(** C1 (amended): a path is in scope iff, for some scope entry, it
    equals the entry, or the entry is marked as a directory by a
    trailing separator and the path properly extends it, or the entry
    is not so marked and the path extends the entry followed by a
    separator. Both edit paths use this one predicate. *)
Theorem isWithinScope_spec scope p :
  isWithinScope scope p = true ↔
    ∃ e, e ∈ scope ∧
      (p = e
       ∨ (JS.endsWith e Path.slash = true
          ∧ ∃ rest, rest ≠ [] ∧ p = e ++ rest)
       ∨ (JS.endsWith e Path.slash = false
          ∧ ∃ rest, p = e ++ Path.slash ++ rest)).
Proof.
  unfold isWithinScope. rewrite normalizedScope_id, existsb_exists.
  split; intros (e & He & Hc); exists e.
  - split; [by apply list_elem_of_In | by apply containedBy_spec].
  - split; [by apply list_elem_of_In | by apply containedBy_spec].
Qed.

(** C1 (as stated) fails: with the file entry [a] as the whole scope,
    the path [a/b] is accepted, though it neither equals an entry nor
    lies below a directory entry. *)
Lemma isWithinScope_file_entry_descendant :
  ¬ (∀ scope p,
       isWithinScope scope p = true ↔
         ∃ e, e ∈ scope ∧
           (p = e
            ∨ (JS.endsWith e Path.slash = true
               ∧ ∃ rest, rest ≠ [] ∧ p = e ++ rest))).
Proof.
  intros Hclaim.
  destruct (Hclaim [js "a"] (js "a/b")) as [Hin _].
  destruct (Hin eq_refl) as (e & He & Hcase).
  apply list_elem_of_singleton in He as ->.
  destruct Hcase as [Heq | [Hdir _]]; discriminate.
Qed.

End Containment.

(* ================================================================== *)
(** * SafeReplace: the rules of a directive *)
(* ================================================================== *)

Section Rules.

Implicit Types (st : EditState) (rule : value) (tokens : list jsstring).

Lemma get_object v key x :
  Value.get v key = x → x ≠ VUndefined →
  Value.truthy v = true ∧ Value.isObject v = true.
Proof. destruct v; simpl; intros <- Hx; done. Qed.

Lemma chooseToken_snoc content tokens token :
  chooseToken content (tokens ++ [token]) =
    chooseStep content (chooseToken content tokens) token.
Proof. unfold chooseToken. by rewrite foldl_app. Qed.

(** The scan keeps the first listed token among those found at the
    lowest offset: what is listed before it is found strictly later or
    not at all, what is listed after it is not found earlier. *)
Lemma chooseToken_spec content tokens :
  match chooseToken content tokens with
  | None => ∀ t, t ∈ tokens → JS.indexOf content t = None
  | Some (chosen, i) =>
      ∃ before after,
        tokens = before ++ chosen :: after
        ∧ JS.indexOf content chosen = Some i
        ∧ (∀ t j, t ∈ before → JS.indexOf content t = Some j → (i < j)%nat)
        ∧ (∀ t j, t ∈ after → JS.indexOf content t = Some j → (i ≤ j)%nat)
  end.
Proof.
  induction tokens as [|token tokens IH] using rev_ind.
  - simpl. intros t Ht. by apply elem_of_nil in Ht.
  - rewrite chooseToken_snoc. unfold chooseStep.
    destruct (JS.indexOf content token) as [index|] eqn:Hindex.
    + destruct (chooseToken content tokens) as [[chosen i]|].
      * destruct IH as (before & after & -> & Hi & Hbefore & Hafter).
        case_bool_decide as Hlt.
        -- exists (before ++ chosen :: after), []. split; [done|].
           split; [done|]. split.
           ++ intros t j Ht Hj.
              apply elem_of_app in Ht as [Ht | Ht].
              ** specialize (Hbefore t j Ht Hj). lia.
              ** apply elem_of_cons in Ht as [-> | Ht].
                 --- rewrite Hi in Hj. injection Hj as <-. lia.
                 --- specialize (Hafter t j Ht Hj). lia.
           ++ intros t j Ht. by apply elem_of_nil in Ht.
        -- exists before, (after ++ [token]).
           split; [by rewrite <- app_assoc|]. split; [done|].
           split; [done|]. intros t j Ht Hj.
           apply elem_of_app in Ht as [Ht | Ht]; [by eapply Hafter|].
           apply list_elem_of_singleton in Ht as ->.
           rewrite Hindex in Hj. injection Hj as <-. lia.
      * exists tokens, []. split; [done|]. split; [done|]. split.
        -- intros t j Ht Hj. rewrite (IH t Ht) in Hj. done.
        -- intros t j Ht. by apply elem_of_nil in Ht.
    + destruct (chooseToken content tokens) as [[chosen i]|].
      * destruct IH as (before & after & -> & Hi & Hbefore & Hafter).
        exists before, (after ++ [token]).
        split; [by rewrite <- app_assoc|]. split; [done|].
        split; [done|]. intros t j Ht Hj.
        apply elem_of_app in Ht as [Ht | Ht]; [by eapply Hafter|].
        apply list_elem_of_singleton in Ht as ->. congruence.
      * intros t Ht. apply elem_of_app in Ht as [Ht | Ht]; [by apply IH|].
        by apply list_elem_of_singleton in Ht as ->.
Qed.


(** A listed string is looked for in its trimmed form. *)
Lemma trimmed_string t : Value.trimmed (VString t) = JS.trim t.
Proof.
  unfold Value.trimmed, Value.orEmpty. simpl.
  destruct (JS.streq t []) eqn:Hempty; [|done].
  by apply streq_true in Hempty as ->.
Qed.

(** Strings listed without white space at their ends, none of them
    empty, are the tokens of the rule as they are listed. *)
Lemma tokenList_listed (listed : list jsstring) :
  Forall (λ t, JS.trim t = t ∧ t ≠ []) listed →
  tokenList (map VString listed) = listed.
Proof.
  unfold tokenList. induction 1 as [|t listed [Htrim Ht] _ IH]; [done|].
  cbn [map]. rewrite trimmed_string, Htrim, filter_cons_True by done.
  by rewrite IH.
Qed.

(** What [substitute] does with the segments of a token that occurs. *)
Lemma substitute_present st tok i replaceValue :
  JS.indexOf (content st) tok = Some i → tok ≠ [] →
  substitute st (JS.split (content st) tok) replaceValue =
    {| content := JS.join replaceValue (JS.split (content st) tok);
       modified := true;
       replacementCount :=
         (replacementCount st
          + (Z.of_nat (length (JS.split (content st) tok)) - 1))%Z |}.
Proof.
  intros Hi Hne. pose proof (split_present _ _ _ Hi Hne) as Hlen.
  unfold substitute.
  destruct (0 <? _)%Z eqn:Hpos; [done|]. apply Z.ltb_ge in Hpos. lia.
Qed.


End Rules.

Section RuleClaims.

Implicit Types (st : EditState) (rule : value).



(** C7: a literal [find] rule whose token does not occur in the current
    content raises nothing and leaves the loop variables as they are,
    the content identical; the rules after it run as if it were not
    there; and when the rules before and after it changed nothing, the
    directive pushes no file. *)
Theorem find_missing_token_is_skipped st rule find replaceValue :
  Value.get rule "replace" = VString replaceValue →
  Value.get rule "find" = VString find →
  JS.indexOf (content st) find = None →
  applyReplacement st rule = Ok st
  ∧ (∀ rest,
       foldM applyReplacement st (rule :: rest) =
         foldM applyReplacement st rest)
  ∧ (∀ normalizedPath originalContent before after st',
       foldM applyReplacement (initialEdit originalContent) before = Ok st →
       foldM applyReplacement st after = Ok st' →
       modified st' = false ∨ content st' = originalContent →
       foldM applyReplacement (initialEdit originalContent)
         (before ++ rule :: after) = Ok st'
       ∧ pushIfChanged normalizedPath originalContent st' = None).
Proof.
  intros Hreplace Hfind Hnone.
  assert (applyReplacement st rule = Ok st) as Hstep.
  { unfold applyReplacement.
    destruct (get_object _ _ _ Hreplace) as [-> ->]; [done|].
    rewrite Hreplace, Hfind. simpl.
    by rewrite split_absent. }
  split; [done|]. split.
  - intros rest. simpl. by rewrite Hstep.
  - intros normalizedPath originalContent before after st' Hbefore Hafter Hsame.
    split.
    + rewrite foldM_app, Hbefore. simpl. by rewrite Hstep.
    + unfold pushIfChanged. destruct Hsame as [-> | ->]; [done|].
      rewrite (proj2 (streq_true originalContent originalContent)) by done.
      by rewrite andb_false_r.
Qed.

End RuleClaims.

Section RuleWitnesses.

Import Sample.





(** The scenario of the specification: [pink-500] is looked for in
    [text-blue-500]. *)
Lemma find_missing_token_is_skipped_witness :
  let st := initialEdit (js "text-blue-500") in
  let rule := findRule "pink-500" "purple-500" in
  applyReplacement st rule = Ok st
  ∧ (∀ rest,
       foldM applyReplacement st (rule :: rest) =
         foldM applyReplacement st rest)
  ∧ (∀ normalizedPath originalContent before after st',
       foldM applyReplacement (initialEdit originalContent) before = Ok st →
       foldM applyReplacement st after = Ok st' →
       modified st' = false ∨ content st' = originalContent →
       foldM applyReplacement (initialEdit originalContent)
         (before ++ rule :: after) = Ok st'
       ∧ pushIfChanged normalizedPath originalContent st' = None).
Proof.
  intros st rule.
  apply (find_missing_token_is_skipped st rule (js "pink-500")
           (js "purple-500")).
  - reflexivity.
  - reflexivity.
  - vm_compute. reflexivity.
Defined.

End RuleWitnesses.

(* ================================================================== *)
(** * Color presets *)
(* ================================================================== *)

Section Presets.

Implicit Types (target kind shade : jsstring).

Lemma traverse_map {A B C : Type} (f : B → result C) (g : A → B)
    (h : A → C) (l : list A) :
  Forall (λ x, f (g x) = Ok (h x)) l →
  traverse f (map g l) = Ok (map h l).
Proof.
  induction 1 as [|x l Hx _ IH]; simpl; [done|]. by rewrite Hx, IH.
Qed.

Lemma traverse_Forall2_map {A B C : Type} (f : A → result B) (h : C → B)
    (l : list A) (l' : list C) :
  Forall2 (λ x z, f x = Ok (h z)) l l' → traverse f l = Ok (map h l').
Proof.
  induction 1 as [|x z l l' Hx _ IH]; simpl; [done|]. by rewrite Hx, IH.
Qed.

Lemma Forall2_map_diag {A B : Type} (P : B → A → Prop) (g : A → B)
    (l : list A) :
  Forall (λ x, P (g x) x) l → Forall2 P (map g l) l.
Proof. induction 1; simpl; by constructor. Qed.

Lemma trimmed_color target :
  target ∈ COLOR_PRESET_COLORS → Value.trimmed (VString target) = target.
Proof.
  intros Hin. apply list_elem_of_In in Hin. simpl in Hin.
  destruct Hin as [<- | [<- | [<- | [<- | [<- | []]]]]]; reflexivity.
Qed.

Lemma trimmed_kind kind :
  kind ∈ COLOR_PRESET_KIND_SET → Value.trimmed (VString kind) = kind.
Proof.
  intros Hin. apply list_elem_of_In in Hin. simpl in Hin.
  destruct Hin as [<- | [<- | [<- | [<- | [<- | [<- | []]]]]]]; reflexivity.
Qed.

Lemma member_true x (l : list jsstring) : x ∈ l → JS.member x l = true.
Proof. intros Hin. unfold JS.member. by apply bool_decide_eq_true. Qed.

(** The tokens of one (kind, shade) pair are pairwise distinct, so the
    [Set] drops none of them. *)
Lemma uniq_colorTokens kind shade :
  kind ∈ COLOR_PRESET_KIND_SET → shade ∈ COLOR_PRESET_SHADE_SET →
  JS.uniq (map (λ color, colorToken kind color shade) COLOR_PRESET_COLORS)
  = map (λ color, colorToken kind color shade) COLOR_PRESET_COLORS.
Proof.
  intros Hkind Hshade.
  apply list_elem_of_In in Hkind. apply list_elem_of_In in Hshade.
  simpl in Hkind, Hshade.
  destruct Hkind as [<- | [<- | [<- | [<- | [<- | [<- | []]]]]]];
    destruct Hshade as [<- | [<- | [<- | []]]]; vm_compute; reflexivity.
Qed.

(** The rule of one (kind, shade) pair of the enumerations. *)
Lemma presetRule_Ok target kind rawShade shade :
  kind ∈ COLOR_PRESET_KIND_SET → shade ∈ COLOR_PRESET_SHADE_SET →
  Value.trimmed rawShade = shade →
  presetRule target kind rawShade =
    Ok (findAnyRule
          (map (λ color, colorToken kind color shade) COLOR_PRESET_COLORS)
          (colorToken kind target shade)).
Proof.
  intros Hkind Hshade Htrim. unfold presetRule. rewrite Htrim.
  rewrite member_true, uniq_colorTokens by done. reflexivity.
Qed.

Lemma trimmed_shade shade :
  shade ∈ COLOR_PRESET_SHADE_SET → Value.trimmed (VString shade) = shade.
Proof.
  intros Hin. apply list_elem_of_In in Hin. simpl in Hin.
  destruct Hin as [<- | [<- | [<- | []]]]; reflexivity.
Qed.

(** C5 (amended): for a preset whose target is a palette name and whose
    kinds and shades lie in the enumerations, the expansion is one rule
    per (kind, shade) pair, kinds outermost, in the order given; the
    rule's [find_any] lists every palette name, the target included,
    each as the token kind-color-shade, in palette order; its [replace]
    is the token kind-target-shade. An empty list of kinds stands for
    [text], an empty list of shades for [500]. *)
Theorem color_preset_expansion preset target kinds shades :
  Value.get preset "target" = VString target →
  Value.get preset "kinds" = VArray (map VString kinds) →
  Value.get preset "shades" = VArray (map VString shades) →
  target ∈ COLOR_PRESET_COLORS →
  Forall (λ kind, kind ∈ COLOR_PRESET_KIND_SET) kinds →
  Forall (λ shade, shade ∈ COLOR_PRESET_SHADE_SET) shades →
  buildColorPresetReplacements preset =
    Ok (concat
          (map (λ kind,
                  map (λ shade,
                         findAnyRule
                           (map (λ color, colorToken kind color shade)
                              COLOR_PRESET_COLORS)
                           (colorToken kind target shade))
                    (match shades with [] => [js "500"] | _ => shades end))
             (match kinds with [] => [js "text"] | _ => kinds end))).
Proof.
  intros Htarget Hkinds Hshades Hcolor Hkind Hshade.
  unfold buildColorPresetReplacements.
  destruct (get_object _ _ _ Htarget) as [-> ->]; [done|]. simpl.
  rewrite Htarget, Hkinds, Hshades, (trimmed_color target Hcolor).
  rewrite (member_true target) by done.
  assert (target ≠ []) as Hne.
  { intros ->. apply list_elem_of_In in Hcolor. simpl in Hcolor.
    destruct Hcolor as [? | [? | [? | [? | [? | []]]]]]; discriminate. }
  rewrite (proj2 (streq_false target [])) by done. simpl.
  set (shades' := match shades with [] => [js "500"] | _ => shades end).
  set (kinds' := match kinds with [] => [js "text"] | _ => kinds end).
  set (rawShades := match map VString shades with
                    | [] => [VNumber 500] | s :: ss => s :: ss end).
  set (rawKinds := match map VString kinds with
                   | [] => [VString (js "text")] | k :: ks => k :: ks end).
  assert (Forall2 (λ raw shade, shade ∈ COLOR_PRESET_SHADE_SET
                                ∧ Value.trimmed raw = shade)
            rawShades shades') as Hraw.
  { subst rawShades shades'. destruct shades as [|s ss]; simpl.
    - constructor; [|constructor]. split; [|reflexivity].
      apply list_elem_of_In. simpl. auto.
    - apply (Forall2_map_diag _ VString (s :: ss)).
      eapply Forall_impl; [exact Hshade|]. intros shade Hin.
      split; [done | by apply trimmed_shade]. }
  assert (∀ kind, kind ∈ COLOR_PRESET_KIND_SET →
            traverse (presetRule target kind) rawShades =
              Ok (map (λ shade,
                         findAnyRule
                           (map (λ color, colorToken kind color shade)
                              COLOR_PRESET_COLORS)
                           (colorToken kind target shade)) shades'))
    as Hinner.
  { intros kind Hin. apply traverse_Forall2_map.
    eapply Forall2_impl; [exact Hraw|].
    intros raw shade [Hs Ht]. by apply presetRule_Ok. }
  assert (rawKinds = map VString kinds'
          ∧ Forall (λ kind, kind ∈ COLOR_PRESET_KIND_SET) kinds')
    as [-> Hkind'].
  { subst rawKinds kinds'. destruct kinds as [|k ks]; simpl; [|done].
    split; [done|]. constructor; [|constructor].
    apply list_elem_of_In. simpl. auto. }
  erewrite traverse_map; [reflexivity|].
  eapply Forall_impl; [exact Hkind'|]. intros kind Hin. simpl.
  unfold presetKind. rewrite (trimmed_kind kind Hin).
  rewrite member_true by done. simpl. by apply Hinner.
Qed.

(** A purple preset on [text] and [500], as in the specification. *)
Lemma color_preset_expansion_witness :
  buildColorPresetReplacements
    (Sample.preset (js "purple") [js "text"] [js "500"]) =
    Ok [findAnyRule
          (map js ["text-red-500"; "text-orange-500"; "text-pink-500";
                   "text-purple-500"; "text-green-500"]%string)
          (js "text-purple-500")].
Proof.
  apply (color_preset_expansion
           (Sample.preset (js "purple") [js "text"] [js "500"])
           (js "purple") [js "text"] [js "500"]).
  - reflexivity.
  - reflexivity.
  - reflexivity.
  - apply list_elem_of_In. simpl. auto.
  - constructor; [|constructor]. apply list_elem_of_In. simpl. auto.
  - constructor; [|constructor]. apply list_elem_of_In. simpl. auto.
Defined.

(** C5 (as stated) fails: the [find_any] of the purple preset on [text]
    and [500] lists [text-purple-500], the target's own token, among
    the tokens to look for. *)
Lemma color_preset_find_any_lists_target :
  ¬ (∀ target kinds shades,
       target ∈ COLOR_PRESET_COLORS →
       Forall (λ kind, kind ∈ COLOR_PRESET_KIND_SET) kinds →
       Forall (λ shade, shade ∈ COLOR_PRESET_SHADE_SET) shades →
       kinds ≠ [] → shades ≠ [] →
       buildColorPresetReplacements (Sample.preset target kinds shades) =
         Ok (concat
               (map (λ kind,
                       map (λ shade,
                              findAnyRule
                                (map (λ color, colorToken kind color shade)
                                   (filter (λ color, color ≠ target)
                                      COLOR_PRESET_COLORS))
                                (colorToken kind target shade))
                         shades)
                  kinds))).
Proof.
  intros Hclaim.
  assert (buildColorPresetReplacements
            (Sample.preset (js "purple") [js "text"] [js "500"]) =
          Ok [findAnyRule
                (map js ["text-red-500"; "text-orange-500";
                         "text-pink-500"; "text-green-500"]%string)
                (js "text-purple-500")]) as Hrule.
  { apply (Hclaim (js "purple") [js "text"] [js "500"]).
    - apply list_elem_of_In. simpl. auto.
    - constructor; [|constructor]. apply list_elem_of_In. simpl. auto.
    - constructor; [|constructor]. apply list_elem_of_In. simpl. auto.
    - done.
    - done. }
  vm_compute in Hrule. discriminate Hrule.
Qed.

End Presets.

(* ================================================================== *)
(** * Buffers: what is encoded can be decoded *)
(* ================================================================== *)

Section Base64.

(** The digits the encoder writes are single bytes. *)
Lemma lowByte_digit v : Buffer.lowByte (Buffer.digit v) = Buffer.digit v.
Proof.
  unfold Buffer.lowByte. apply N.mod_small. unfold Buffer.digit.
  repeat match goal with
         | |- context [?a <? ?b] => destruct (N.ltb_spec a b); try lia
         | |- context [?a =? ?b] => destruct (N.eqb_spec a b); try lia
         end.
Qed.

(** Every digit the encoder writes is read back as one sextet. *)
Lemma sextets_digit v s :
  ∃ w, Buffer.sextets (Buffer.digit v :: s) = w :: Buffer.sextets s.
Proof.
  assert ((Buffer.lowByte (Buffer.digit v) =? Buffer.PAD) = false
          ∧ ∃ w, Buffer.unbase64 (Buffer.digit v) = Some w) as [Hpad [w Hw]].
  { unfold Buffer.unbase64. rewrite lowByte_digit.
    unfold Buffer.digit, Buffer.PAD.
  repeat match goal with
         | |- context [?a <? ?b] => destruct (N.ltb_spec a b); try lia
         | |- context [?a =? ?b] => destruct (N.eqb_spec a b); try lia
         | |- context [?a <=? ?b] => destruct (N.leb_spec a b); try lia
         end; simpl; split; try done; eauto. }
exists w. simpl. by rewrite Hpad, Hw.
Qed.

Lemma sextets_pad s : Buffer.sextets (Buffer.PAD :: s) = [].
Proof. reflexivity. Qed.

(** Decoding what [toBase64] wrote gives back as many bytes as were
    encoded. *)
Lemma fromBase64_toBase64_length (b : list N) :
  length (Buffer.fromBase64 (Buffer.toBase64 b)) = length b.
Proof.
  unfold Buffer.fromBase64.
  assert (∀ n (b : list N), (length b ≤ n)%nat →
            length (Buffer.unpack (Buffer.sextets (Buffer.toBase64 b)))
            = length b) as Hall; [|by eapply Hall].
  clear b. induction n as [|n IH]; intros b Hlen.
  - destruct b; [done | simpl in Hlen; lia].
  - destruct b as [|x [|y [|z rest]]].
    + done.
    + cbn [Buffer.toBase64].
      destruct (sextets_digit (x / 4)
                  [Buffer.digit (x `mod` 4 * 16); Buffer.PAD; Buffer.PAD])
        as [w1 ->].
      destruct (sextets_digit (x `mod` 4 * 16) [Buffer.PAD; Buffer.PAD])
        as [w2 ->].
      by rewrite sextets_pad.
    + cbn [Buffer.toBase64].
      destruct (sextets_digit (x / 4)
                  [Buffer.digit (x `mod` 4 * 16 + y / 16);
                   Buffer.digit (y `mod` 16 * 4); Buffer.PAD])
        as [w1 ->].
      destruct (sextets_digit (x `mod` 4 * 16 + y / 16)
                  [Buffer.digit (y `mod` 16 * 4); Buffer.PAD])
        as [w2 ->].
      destruct (sextets_digit (y `mod` 16 * 4) [Buffer.PAD]) as [w3 ->].
      by rewrite sextets_pad.
    + cbn [Buffer.toBase64 app].
      destruct (sextets_digit (x / 4)
                  (Buffer.digit (x `mod` 4 * 16 + y / 16)
                   :: Buffer.digit (y `mod` 16 * 4 + z / 64)
                   :: Buffer.digit (z `mod` 64) :: Buffer.toBase64 rest))
        as [w1 ->].
      destruct (sextets_digit (x `mod` 4 * 16 + y / 16)
                  (Buffer.digit (y `mod` 16 * 4 + z / 64)
                   :: Buffer.digit (z `mod` 64) :: Buffer.toBase64 rest))
        as [w2 ->].
      destruct (sextets_digit (y `mod` 16 * 4 + z / 64)
                  (Buffer.digit (z `mod` 64) :: Buffer.toBase64 rest))
        as [w3 ->].
      destruct (sextets_digit (z `mod` 64) (Buffer.toBase64 rest))
        as [w4 ->].
      cbn [Buffer.unpack app length]. rewrite IH; [done|].
      simpl in Hlen. lia.
Qed.

(** A sextet is read back from its digit. *)
Lemma sextets_digit_sextet v s :
  v < 64 → Buffer.sextets (Buffer.digit v :: s) = v :: Buffer.sextets s.
Proof.
  intros Hv.
  assert ((Buffer.lowByte (Buffer.digit v) =? Buffer.PAD) = false
          ∧ Buffer.unbase64 (Buffer.digit v) = Some v) as [Hpad Hw].
  { unfold Buffer.unbase64. rewrite lowByte_digit.
    unfold Buffer.digit, Buffer.PAD.
    repeat match goal with
           | |- context [?a <? ?b] => destruct (N.ltb_spec a b); try lia
           | |- context [?a =? ?b] => destruct (N.eqb_spec a b); try lia
           | |- context [?a <=? ?b] => destruct (N.leb_spec a b); try lia
           end; simpl; split; try done; f_equal; lia. }
  simpl. by rewrite Hpad, Hw.
Qed.

(** Three bytes against the four sextets they are packed into. *)
Lemma pack_unpack x y z :
  x < 256 → y < 256 → z < 256 →
  x / 4 < 64
  ∧ x `mod` 4 * 16 + y / 16 < 64
  ∧ y `mod` 16 * 4 + z / 64 < 64
  ∧ z `mod` 64 < 64
  ∧ x / 4 * 4 + (x `mod` 4 * 16 + y / 16) / 16 = x
  ∧ (x `mod` 4 * 16 + y / 16) `mod` 16 * 16
    + (y `mod` 16 * 4 + z / 64) / 4 = y
  ∧ (y `mod` 16 * 4 + z / 64) `mod` 4 * 64 + z `mod` 64 = z.
Proof.
  intros Hx Hy Hz.
  pose proof (N.div_mod x 4 ltac:(done)).
  pose proof (N.mod_upper_bound x 4 ltac:(done)).
  pose proof (N.div_mod y 16 ltac:(done)).
  pose proof (N.mod_upper_bound y 16 ltac:(done)).
  pose proof (N.div_mod z 64 ltac:(done)).
  pose proof (N.mod_upper_bound z 64 ltac:(done)).
  set (xq := x / 4) in *. set (xr := x `mod` 4) in *.
  set (yq := y / 16) in *. set (yr := y `mod` 16) in *.
  set (zq := z / 64) in *. set (zr := z `mod` 64) in *.
  clearbody xq xr yq yr zq zr.
  assert ((xr * 16 + yq) / 16 = xr) as Hb1.
  { symmetry. apply (N.div_unique _ 16 _ yq); lia. }
  assert ((xr * 16 + yq) `mod` 16 = yq) as Hb2.
  { symmetry. apply (N.mod_unique _ 16 xr); lia. }
  assert ((yr * 4 + zq) / 4 = yr) as Hc1.
  { symmetry. apply (N.div_unique _ 4 _ zq); lia. }
  assert ((yr * 4 + zq) `mod` 4 = zq) as Hc2.
  { symmetry. apply (N.mod_unique _ 4 yr); lia. }
  rewrite Hb1, Hb2, Hc1, Hc2. lia.
Qed.

(** Decoding what [toBase64] wrote gives the bytes back. *)
Lemma fromBase64_toBase64 (b : list N) :
  Forall (λ x, x < 256) b →
  Buffer.fromBase64 (Buffer.toBase64 b) = b.
Proof.
  unfold Buffer.fromBase64.
  assert (∀ n (b : list N), (length b ≤ n)%nat → Forall (λ x, x < 256) b →
            Buffer.unpack (Buffer.sextets (Buffer.toBase64 b)) = b)
    as Hall; [|by eapply Hall].
  clear b. induction n as [|n IH]; intros b Hlen Hbytes.
  - destruct b; [done | simpl in Hlen; lia].
  - destruct b as [|x [|y [|z rest]]]; [done|..].
    + apply Forall_cons in Hbytes as [Hx _].
      destruct (pack_unpack x 0 0) as (Ha & Hb & _ & _ & Hx' & _ & _);
        [done..|].
      cbn [Buffer.toBase64]. rewrite N.add_0_r in Hb, Hx'.
      rewrite !sextets_digit_sextet, sextets_pad by done.
      cbn [Buffer.unpack]. by rewrite Hx'.
    + apply Forall_cons in Hbytes as [Hx Hbytes].
      apply Forall_cons in Hbytes as [Hy _].
      destruct (pack_unpack x y 0) as (Ha & Hb & Hc & _ & Hx' & Hy' & _);
        [done..|].
      cbn [Buffer.toBase64]. rewrite N.add_0_r in Hc, Hy'.
      rewrite !sextets_digit_sextet, sextets_pad by done.
      cbn [Buffer.unpack]. by rewrite Hx', Hy'.
    + apply Forall_cons in Hbytes as [Hx Hbytes].
      apply Forall_cons in Hbytes as [Hy Hbytes].
      apply Forall_cons in Hbytes as [Hz Hbytes].
      destruct (pack_unpack x y z) as (Ha & Hb & Hc & Hd & Hx' & Hy' & Hz');
        [done..|].
      cbn [Buffer.toBase64 app].
      rewrite !sextets_digit_sextet by done.
      cbn [Buffer.unpack app]. rewrite Hx', Hy', Hz', IH; [done | |done].
      simpl in Hlen. lia.
Qed.

(** The buffer the validator decodes from a SafeReplace edit is as long
    as the UTF-8 form of the edited content. *)
Lemma edited_size (content : jsstring) :
  Buffer.size
    (Buffer.fromBase64 (Buffer.toBase64 (Buffer.fromUtf8 content)))
  = Buffer.byteLength content.
Proof.
  unfold Buffer.byteLength, Buffer.size.
  by rewrite fromBase64_toBase64_length.
Qed.

End Base64.

(* ================================================================== *)
(** * SafeReplace: the run *)
(* ================================================================== *)

Section SafeReplaceRun.

Implicit Types (ticket : TicketDocument) (scopeFiles : list ScopeFile)
  (scopeMap : gmap jsstring ScopeFile) (files : list value).

(** The loop over the directives, from any [files] already pushed. *)
Lemma editedFiles_none scope scopeMap entries files :
  Forall (λ entry, applyDirective scope scopeMap entry = Ok None) entries →
  foldM (λ files entry,
           pushed ← applyDirective scope scopeMap entry;
           Ok (files ++ option_list pushed))
    files entries = Ok files.
Proof.
  intros Hall. revert files.
  induction Hall as [|entry entries Hentry _ IH]; intros files; [done|].
  simpl. rewrite Hentry. simpl. rewrite app_nil_r. apply IH.
Qed.

(** What a directive pushes is an edit of some path to some content. *)
Lemma applyDirective_pushed scope scopeMap entry f :
  applyDirective scope scopeMap entry = Ok (Some f) →
  ∃ p c, f = editedFile p c.
Proof.
  unfold applyDirective.
  destruct (Value.truthy entry); [|done].
  destruct (Value.get entry "path") as [| | | |entry_path| |]; try done.
  destruct (throwIf (JS.startsWith _ _) _); simpl; [|done].
  destruct (throwIf (negb _) _); simpl; [|done].
  destruct (scopeMap !! _) as [scopeFile|]; [|done].
  destruct (Value.get entry "replacements") as [| | | | |[|r rs]|];
    try done.
  destruct (applyReplacement _ r ≫= _) as [st|]; simpl; [|done].
  unfold pushIfChanged. destruct (_ && _); [|done].
  intros [= <-]. eauto.
Qed.

Lemma editedFiles_pushed scope scopeMap entries files0 files :
  Forall (λ f, ∃ p c, f = editedFile p c) files0 →
  foldM (λ files entry,
           pushed ← applyDirective scope scopeMap entry;
           Ok (files ++ option_list pushed))
    files0 entries = Ok files →
  Forall (λ f, ∃ p c, f = editedFile p c) files.
Proof.
  revert files0. induction entries as [|entry entries IH];
    intros files0 H0; simpl.
  - by intros [= <-].
  - destruct (applyDirective scope scopeMap entry) as [pushed|] eqn:Hd;
      simpl; [|done].
    apply IH. apply Forall_app. split; [done|].
    destruct pushed as [f|]; simpl; [|constructor].
    constructor; [|constructor]. by eapply applyDirective_pushed.
Qed.

(** The validator's callback throws on an edit whose content has no
    bytes or more than [MAX_FILE_SIZE]. *)
Lemma validateModelFile_edited_size scope p c :
  Buffer.byteLength c = 0 ∨ MAX_FILE_SIZE < Buffer.byteLength c →
  ∃ e, validateModelFile scope (editedFile p c) = Err e.
Proof.
  intros Hsize. unfold validateModelFile, editedFile.
  cbn [Value.truthy].
  change (Value.get (VObject _) "path") with (VString p).
  change (Value.get (VObject _) "contents_base64")
    with (VString (Buffer.toBase64 (Buffer.fromUtf8 c))).
  cbv beta iota. rewrite edited_size.
  destruct (throwIf (JS.startsWith _ _) _) as [[]|e1]; simpl; [|eauto].
  destruct (throwIf (negb _) _) as [[]|e2]; simpl; [|eauto].
  destruct Hsize as [-> | Hlarge]; simpl; [eauto|].
  destruct (Buffer.byteLength c =? 0); simpl; [eauto|].
  apply N.ltb_lt in Hlarge. rewrite Hlarge. simpl. eauto.
Qed.

Lemma traverse_length {A B : Type} (f : A → result B) l ys :
  traverse f l = Ok ys → length ys = length l.
Proof.
  intros H. apply traverse_Ok in H. symmetry. by eapply Forall2_length.
Qed.

(** C8: when [safe_replace] is a non-empty list of directives and every
    directive, after preset expansion, is processed without pushing a
    file, [safeReplace] returns the empty list without throwing and the
    run returns at once: neither Sanity Rails nor the commit step sees
    any file, whatever the generative source and the strict flag. *)
Theorem no_change_exits_early
    (callLLM : TicketDocument → list ScopeFile
               → result (list CandidateFile))
    (verifyStrict : bool) ticket scopeFiles directives expanded :
  safe_replace ticket = VArray directives →
  directives ≠ [] →
  applyColorPresets directives = Ok expanded →
  Forall (λ entry,
            applyDirective (scope ticket) (scopeMapOf scopeFiles) entry
            = Ok None) expanded →
  safeReplace ticket scopeFiles = Ok []
  ∧ run callLLM verifyStrict ticket scopeFiles = ExitedEarly.
Proof.
  intros Hsafe Hne Hexpanded Hall.
  assert (safeReplace ticket scopeFiles = Ok []) as Hreturn.
  { unfold safeReplace. rewrite Hsafe.
    destruct directives as [|d ds]; [done|].
    rewrite Hexpanded. simpl. unfold editedFiles.
    by rewrite editedFiles_none. }
  split; [done|]. unfold run. rewrite Hsafe.
  destruct directives as [|d ds]; [done|]. simpl.
  by rewrite Hreturn.
Qed.

(** C9: when SafeReplace pushed at least one file, what it returns is
    what [validateModelFiles] makes of the pushed files, and only what
    the validator returned goes on to Sanity Rails and the commit; so
    more than [MAX_FILES] pushed files end in the validator's
    [TooManyFilesError], and a pushed file whose content has no bytes
    or more than [MAX_FILE_SIZE] bytes ends the run in an error of the
    validator. Every pushed file is an edit [{ path, contents_base64 }]
    of some content. *)
Theorem safeReplace_edits_pass_validator
    ticket scopeFiles directives expanded files :
  safe_replace ticket = VArray directives →
  directives ≠ [] →
  applyColorPresets directives = Ok expanded →
  editedFiles (scope ticket) (scopeMapOf scopeFiles) expanded = Ok files →
  files ≠ [] →
  safeReplace ticket scopeFiles
  = validateModelFiles (VArray files) (scope ticket)
  ∧ (∀ callLLM verifyStrict,
       run callLLM verifyStrict ticket scopeFiles =
         match validateModelFiles (VArray files) (scope ticket) with
         | Err e => Aborted e
         | Ok candidates =>
             if verifyStrict then
               match runSanityRails candidates with
               | Err e => Aborted e
               | Ok _ => HandedToCommit candidates
               end
             else HandedToCommit candidates
         end)
  ∧ ((MAX_FILES < length files)%nat →
     safeReplace ticket scopeFiles = Err TooManyFilesError)
  ∧ (∀ p c,
       editedFile p c ∈ files →
       Buffer.byteLength c = 0 ∨ MAX_FILE_SIZE < Buffer.byteLength c →
       ∃ e, safeReplace ticket scopeFiles = Err e)
  ∧ Forall (λ f, ∃ p c, f = editedFile p c) files.
Proof.
  intros Hsafe Hne Hexpanded Hfiles Hpushed.
  assert (safeReplace ticket scopeFiles
          = validateModelFiles (VArray files) (scope ticket)) as Hreturn.
  { unfold safeReplace. rewrite Hsafe.
    destruct directives as [|d ds]; [done|].
    rewrite Hexpanded. simpl. rewrite Hfiles. simpl.
    by destruct files. }
  split; [done|]. split; [|split; [|split]].
  - intros callLLM verifyStrict. unfold run. rewrite Hsafe.
    destruct directives as [|d ds]; [done|]. cbn [nonEmptyArray].
    rewrite Hreturn.
    destruct (validateModelFiles (VArray files) (scope ticket))
      as [candidates|e] eqn:Hvalid; simpl; [|done].
    destruct candidates as [|candidate candidates]; [|done].
    exfalso. unfold validateModelFiles in Hvalid.
    destruct files as [|f fs]; [done|].
    destruct (throwIf _ _); simpl in Hvalid; [|done].
    destruct (validateModelFile _ f); simpl in Hvalid; [|done].
    destruct (traverse _ fs); simpl in Hvalid; done.
  - intros Hmany. rewrite Hreturn. unfold validateModelFiles.
    destruct files as [|f fs]; [done|].
    by rewrite bool_decide_eq_true_2.
  - intros p c Hin Hsize. rewrite Hreturn. unfold validateModelFiles.
    destruct files as [|f fs]; [done|].
    destruct (throwIf _ _) as [[]|e]; [|by exists e].
    change (∃ e, traverse (validateModelFile (scope ticket)) (f :: fs)
                 = Err e).
    destruct (validateModelFile_edited_size (scope ticket) p c Hsize)
      as [e He].
    by eapply traverse_Err.
  - eapply editedFiles_pushed; [|exact Hfiles]. constructor.
Qed.

End SafeReplaceRun.

Section SafeReplaceWitnesses.

Import Sample.

(** The scenario of the specification: the one rule looks for
    [pink-500] in a file that reads [text-blue-500]. *)
Lemma no_change_exits_early_witness :
  let ticket := ticket [directive "f.ts" [findRule "pink-500" "purple-500"]] in
  let scopeFiles := [scopeFile "f.ts" "text-blue-500"] in
  safeReplace ticket scopeFiles = Ok []
  ∧ run (λ _ _, Err NoFilesError) true ticket scopeFiles = ExitedEarly.
Proof.
  intros ticket scopeFiles.
  apply (no_change_exits_early (λ _ _, Err NoFilesError) true
           ticket scopeFiles
           [directive "f.ts" [findRule "pink-500" "purple-500"]]
           [directive "f.ts" [findRule "pink-500" "purple-500"]]).
  - reflexivity.
  - discriminate.
  - reflexivity.
  - constructor; [|constructor]. vm_compute. reflexivity.
Defined.

(** A rule that deletes the whole content of [f.ts]: the pushed file
    has no bytes and the validator ends the run. *)
Lemma safeReplace_edits_pass_validator_witness :
  let ticket := ticket [directive "f.ts" [findRule "pink-500" ""]] in
  let scopeFiles := [scopeFile "f.ts" "pink-500"] in
  safeReplace ticket scopeFiles
  = validateModelFiles (VArray [editedFile (js "f.ts") []]) [js "f.ts"]
  ∧ ∃ e, safeReplace ticket scopeFiles = Err e.
Proof.
  intros ticket scopeFiles.
  destruct (safeReplace_edits_pass_validator ticket scopeFiles
              [directive "f.ts" [findRule "pink-500" ""]]
              [directive "f.ts" [findRule "pink-500" ""]]
              [editedFile (js "f.ts") []])
    as (Hreturn & _ & _ & Hsize & _).
  - reflexivity.
  - discriminate.
  - reflexivity.
  - vm_compute. reflexivity.
  - discriminate.
  - split; [exact Hreturn|].
    apply (Hsize (js "f.ts") []).
    + apply list_elem_of_singleton. reflexivity.
    + left. reflexivity.
Defined.

End SafeReplaceWitnesses.

(* ================================================================== *)
(** * The ticket parser *)
(* ================================================================== *)

Section Parser.

(** A ticket that parses has a scope with at least one entry. *)
Lemma parseTicket_scope_nonempty loaded doc :
  parseTicket loaded = Ok doc → scope doc ≠ [].
Proof.
  unfold parseTicket.
  destruct (throwIf _ TicketParseError); step_bind; [|done].
  destruct (foldM _ () requiredKeys); step_bind; [|done].
  destruct (Value.get loaded "scope") as [| | | | |[|e es]|]; try done.
  destruct (traverse normalizeScopeEntry (e :: es)) as [entries|] eqn:Hs;
    step_bind; [|done].
  destruct (throwIf _ GuardrailsError); step_bind; [|done].
  intros [= <-]. cbn [scope]. apply traverse_length in Hs.
  by destruct entries.
Qed.

(** C2: the parser's escape test looks for a leading [../] in the
    normalized entry. The entry [..] normalizes to [..], which has no
    such prefix, and is returned as a scope entry; so are [../] (as the
    directory entry [../]) and [a/../..]. *)
Theorem parseTicket_keeps_parent_entry :
  (∃ doc, parseTicket (Sample.loaded [".."]%string) = Ok doc
          ∧ scope doc = [js ".."])
  ∧ normalizeScopeEntry (Sample.str "..") = Ok (js "..")
  ∧ normalizeScopeEntry (Sample.str "../") = Ok (js "../")
  ∧ normalizeScopeEntry (Sample.str "a/../..") = Ok (js "..")
  ∧ normalizeScopeEntry (Sample.str "../x")
    = Err (ScopeEscapeError (js "../x")).
Proof.
  split; [|repeat split; reflexivity].
  eexists. split; [vm_compute; reflexivity | reflexivity].
Qed.

End Parser.

(* ================================================================== *)
(** * The generated-edit validator *)
(* ================================================================== *)

Section Validator.

Lemma traverse_Err_inv {A B : Type} (f : A → result B) (l : list A) e :
  traverse f l = Err e → ∃ x, x ∈ l ∧ f x = Err e.
Proof.
  induction l as [|x l IH]; simpl; [done|].
  destruct (f x) as [y|e1] eqn:Hx; simpl.
  - destruct (traverse f l) as [ys|e2]; simpl; [done|].
    intros [= <-]. destruct IH as (x' & Hin & Hx'); [done|].
    exists x'. split; [by apply elem_of_cons; right | done].
  - intros [= <-]. exists x. split; [by apply elem_of_cons; left | done].
Qed.

(** No file entry is rejected as a decoding failure. *)
Lemma validateModelFile_never_EncodingError scope file p :
  validateModelFile scope file ≠ Err (EncodingError p).
Proof.
  unfold validateModelFile.
  destruct (Value.truthy file); [|done].
  destruct (Value.get file "path"); try done.
  destruct (Value.get file "contents_base64"); try done.
  unfold throwIf.
  repeat match goal with
         | |- context [if ?b then _ else _] => destruct b
         end; simpl; done.
Qed.

(** C3: an entry whose [contents_base64] holds [#], which is neither a
    base64 digit nor padding, is not rejected: the decoder passes over
    the unit, and the validator returns a CandidateFile with the
    decoded text. No input at all makes the validator raise the
    decoding error. *)
Theorem validateModelFiles_decodes_malformed_base64 :
  35 ∈ js "aGVs#bG8h"
  ∧ Buffer.unbase64 35 = None
  ∧ 35 ≠ Buffer.PAD
  ∧ validateModelFiles
      (VArray [Sample.modelFile "f.ts" "aGVs#bG8h"]) [js "f.ts"]
    = Ok [{| path := js "f.ts";
             contents := js "hello!";
             base64 := js "aGVs#bG8h" |}]
  ∧ (∀ modelFiles scope p,
       validateModelFiles modelFiles scope ≠ Err (EncodingError p)).
Proof.
  split; [apply list_elem_of_In; vm_compute; auto 10|].
  split; [reflexivity|]. split; [done|]. split; [reflexivity|].
  intros modelFiles scope p. unfold validateModelFiles.
  destruct modelFiles as [| | | | |[|f fs]|]; try done.
  unfold throwIf. destruct (bool_decide _); [done|].
  intros Herr.
  change (traverse (validateModelFile scope) (f :: fs)
          = Err (EncodingError p)) in Herr.
  apply traverse_Err_inv in Herr as (file & _ & Hfile).
  by eapply validateModelFile_never_EncodingError.
Qed.

End Validator.

(* ================================================================== *)
(** * Sanity Rails *)
(* ================================================================== *)

Section SanityRails.

(** The size gate lets through the sizes from 1 to 200000. *)
Lemma sizeCheckFails_spec (size : N) :
  sizeCheckFails size = false ↔ 0 < size ≤ 200000.
Proof.
  unfold sizeCheckFails. rewrite orb_false_iff, N.eqb_neq, N.ltb_ge. lia.
Qed.

(** ASCII text has one byte per code unit. *)
Lemma byteLength_replicate_ascii (n : nat) (c : code_unit) :
  c < 0x80 → Buffer.byteLength (replicate n c) = N.of_nat n.
Proof.
  intros Hc. unfold Buffer.byteLength, Buffer.size. f_equal.
  induction n as [|n IH]; [done|].
  cbn [replicate Buffer.fromUtf8].
  assert (Buffer.isHighSurrogate c = false) as ->.
  { unfold Buffer.isHighSurrogate. apply andb_false_iff. left.
    apply N.leb_gt. lia. }
  assert (Buffer.isLowSurrogate c = false) as ->.
  { unfold Buffer.isLowSurrogate. apply andb_false_iff. left.
    apply N.leb_gt. lia. }
  unfold Buffer.encodeCodePoint.
  rewrite (proj2 (N.ltb_lt c 0x80)) by done. simpl. by rewrite IH.
Qed.

(** C4: the size gate of Sanity Rails compares with the literal 200000,
    not with [MAX_FILE_SIZE]: a CandidateFile of 200001 bytes, within
    the 204800 bytes the validator allows, is rejected. *)
Theorem sanity_rails_rejects_below_max_file_size :
  let text := replicate (N.to_nat 200001) 97 in
  let file := {| path := js "f.ts"; contents := text; base64 := [] |} in
  Buffer.byteLength text = 200001
  ∧ 0 < 200001 ≤ MAX_FILE_SIZE
  ∧ runSanityRails [file] = Err SanityRailsError.
Proof.
  cbv zeta.
  assert (Buffer.byteLength (replicate (N.to_nat 200001) 97) = 200001)
    as Hlen.
  { rewrite byteLength_replicate_ascii by reflexivity. apply N2Nat.id. }
  split; [exact Hlen|]. split; [vm_compute; split; [reflexivity | discriminate]|].
  unfold runSanityRails, foldM, sanityCheck.
  cbn [contents path]. rewrite Hlen. reflexivity.
Qed.

End SanityRails.

(* ================================================================== *)
(** * The scenarios of the specification, run *)
(* ================================================================== *)

Section Scenarios.

Import Sample.

(** [f.ts] reads [text-pink-500]: one CandidateFile comes back. *)
Example scenario_one_file_changed :
  safeReplace
    (ticket [directive "f.ts" [findRule "pink-500" "purple-500"]])
    [scopeFile "f.ts" "text-pink-500"]
  = Ok [{| path := js "f.ts";
           contents := js "text-purple-500";
           base64 := js "dGV4dC1wdXJwbGUtNTAw" |}].
Proof. vm_compute. reflexivity. Qed.

(** The rules of a directive run in order, each on what the one before
    it left. *)
Example scenario_rules_in_sequence :
  safeReplace
    (ticket [directive "f.ts" [findRule "pink" "orange";
                               findRule "orange-500" "purple-500"]])
    [scopeFile "f.ts" "text-pink-500"]
  = Ok [{| path := js "f.ts";
           contents := js "text-purple-500";
           base64 := js "dGV4dC1wdXJwbGUtNTAw" |}].
Proof. vm_compute. reflexivity. Qed.

(** A file edited down to nothing is stopped by the validator. *)
Example scenario_emptied_file :
  safeReplace
    (ticket [directive "f.ts" [findRule "pink-500" ""]])
    [scopeFile "f.ts" "pink-500"]
  = Err (EmptyContentError (js "f.ts")).
Proof. vm_compute. reflexivity. Qed.

(** A preset whose target already stands first in the file: the target's
    own token is the one chosen, and nothing changes. *)
Example scenario_preset_target_first :
  safeReplace
    (ticket [obj [("path", str "f.ts");
                  ("color_preset",
                   preset (js "purple") [js "text"] [js "500"])]%string])
    [scopeFile "f.ts" "text-purple-500 text-orange-500"]
  = Ok [].
Proof. vm_compute. reflexivity. Qed.

(** [./a/b.ts] and [a/b.ts] are one scope entry; [../x] is refused. *)
Example scenario_scope_normalization :
  normalizeScopeEntry (str "./a/b.ts") = Ok (js "a/b.ts")
  ∧ normalizeScopeEntry (str "a/b.ts") = Ok (js "a/b.ts")
  ∧ normalizeScopeEntry (str "src/") = Ok (js "src/")
  ∧ normalizeScopeEntry (str "../x") = Err (ScopeEscapeError (js "../x")).
Proof. repeat split; reflexivity. Qed.

(** The generated-edit validator on [../secret] and on six entries. *)
Example scenario_validator_rejections :
  validateModelFiles (VArray [modelFile "../secret" "aGk="]) [js "f.ts"]
  = Err (PathEscapeError (js "../secret"))
  ∧ validateModelFiles (VArray (replicate 6 (modelFile "f.ts" "aGk=")))
      [js "f.ts"]
    = Err TooManyFilesError
  ∧ validateModelFiles (VArray [modelFile "g.ts" "aGk="]) [js "f.ts"]
    = Err (ScopeViolationError (js "g.ts"))
  ∧ validateModelFiles (VArray [modelFile "f.ts" "####"]) [js "f.ts"]
    = Err (EmptyContentError (js "f.ts"))
  ∧ validateModelFiles (VArray [modelFile "./f.ts" "aGk="]) [js "f.ts"]
    = Ok [{| path := js "f.ts"; contents := js "hi"; base64 := js "aGk=" |}].
Proof. repeat split; vm_compute; reflexivity. Qed.

(** Sanity Rails on a NUL, on a layout without its export, and on a
    layout that keeps it. *)
Example scenario_sanity_rails :
  runSanityRails
    [{| path := js "f.ts"; contents := js "a" ++ [0] ++ js "b";
        base64 := [] |}]
  = Err SanityRailsError
  ∧ runSanityRails
      [{| path := js "src/app/layout.tsx";
          contents := js "export const metadata = {}"; base64 := [] |}]
    = Err SanityRailsError
  ∧ runSanityRails
      [{| path := js "src/app/layout.tsx";
          contents := js "export default function RootLayout() {}";
          base64 := [] |}]
    = Ok ().
Proof. repeat split; vm_compute; reflexivity. Qed.

(** Base64 in code units above [0xFF]: the decoder reads the low bytes,
    here those of [aGk=]. *)
Example scenario_wide_base64 :
  let wide := [0x161; 0x147; 0x16b; 0x13d] in
  validateModelFiles
    (VArray [VObject [(js "path", str "f.ts");
                      (js "contents_base64", VString wide)]])
    [js "f.ts"]
  = Ok [{| path := js "f.ts"; contents := js "hi"; base64 := wide |}].
Proof. vm_compute. reflexivity. Qed.

(** Number tokens of a [find_any] list are looked for as [String]
    prints them: plain digits up to 21 of them, the shortest digits of
    the double and an exponent beyond; zero is dropped as falsy. *)
Example scenario_number_tokens :
  tokenList [VNumber 500; VNumber 0; VNumber (10 ^ 21);
             VNumber (2 ^ 53 + 1); VNumber (2 ^ 64); VNumber (- 2 ^ 70);
             VNumber (2 ^ 1024)]
  = map js ["500"; "1e+21"; "9007199254740992"; "18446744073709552000";
            "-1.1805916207174113e+21"; "Infinity"]%string
  ∧ applyReplacement (initialEdit (js "z-1e+21"))
      (obj [("find_any", VArray [VNumber (10 ^ 21)]);
            ("replace", str "R")]%string)
    = Ok {| content := js "z-R"; modified := true; replacementCount := 1 |}.
Proof. split; vm_compute; reflexivity. Qed.

End Scenarios.

(* ================================================================== *)
(** * Splitting and joining *)
(* ================================================================== *)

Section SplitJoin.

Implicit Types s sep cur tok : jsstring.

Lemma join_cons sep x (rest : list jsstring) :
  rest ≠ [] → JS.join sep (x :: rest) = x ++ sep ++ JS.join sep rest.
Proof. by destruct rest. Qed.

(** The units of a match are passed over one by one. *)
Lemma split_go_skip sep a cur s :
  JS.split_go sep (length a) cur (a ++ s) = JS.split_go sep 0 cur s.
Proof. induction a as [|x a IH]; [done | apply IH]. Qed.

Lemma join_split_go sep cur s :
  sep ≠ [] → JS.join sep (JS.split_go sep 0 cur s) = reverse cur ++ s.
Proof.
  intros Hsep.
  assert (∀ n s cur, (length s ≤ n)%nat →
            JS.join sep (JS.split_go sep 0 cur s) = reverse cur ++ s)
    as Hall; [|by eapply Hall].
  clear s cur. induction n as [|n IH]; intros s cur Hlen.
  - destruct s; [|simpl in Hlen; lia]. simpl. by rewrite app_nil_r.
  - destruct s as [|c s]; [simpl; by rewrite app_nil_r|].
    rewrite split_go_unfold.
    destruct (JS.startsWith (c :: s) sep) eqn:Hp.
    + apply startsWith_prefix in Hp as [rest Hrest].
      destruct sep as [|d sep']; [done|].
      injection Hrest as -> ->.
      replace (length (d :: sep') - 1)%nat with (length sep')
        by (simpl; lia).
      rewrite split_go_skip, join_cons by apply split_go_nonempty.
      rewrite IH; [done|]. simpl in Hlen. rewrite length_app in Hlen. lia.
    + rewrite IH by (simpl in Hlen; lia).
      by rewrite reverse_cons, <- app_assoc.
Qed.

(** Splitting on a token and joining with the same token gives the
    string back, whatever the token. *)
Lemma join_split s tok : JS.join tok (JS.split s tok) = s.
Proof.
  destruct tok as [|c tok].
  - unfold JS.split. induction s as [|x s IH]; [done|].
    destruct s as [|y s]; [done|].
    change (JS.join [] (map (λ c, [c]) (x :: y :: s)))
      with (x :: JS.join [] (map (λ c, [c]) (y :: s))).
    by rewrite IH.
  - unfold JS.split. by rewrite join_split_go.
Qed.

End SplitJoin.

(* ================================================================== *)
(** * SafeReplace: more on the rules *)
(* ================================================================== *)

Section RuleFacts.

Implicit Types (st : EditState) (rule : value).

(** A literal rule, as [applyReplacement] runs it. *)
Lemma applyReplacement_find st rule find replaceValue :
  Value.get rule "replace" = VString replaceValue →
  Value.get rule "find" = VString find →
  applyReplacement st rule =
    if bool_decide (length (JS.split (content st) find) = 1%nat) then Ok st
    else Ok (substitute st (JS.split (content st) find) replaceValue).
Proof.
  intros Hreplace Hfind. unfold applyReplacement.
  destruct (get_object _ _ _ Hreplace) as [-> ->]; [done|].
  by rewrite Hreplace, Hfind.
Qed.

Lemma substitute_content st segments replaceValue :
  content (substitute st segments replaceValue)
  = JS.join replaceValue segments.
Proof. unfold substitute. by destruct (0 <? _)%Z. Qed.

(** X1: a literal rule whose [replace] is its own [find] never changes
    the content, so a directive made of such rules pushes no file. *)
Theorem self_replacement_changes_nothing st rules normalizedPath :
  Forall (λ rule, ∃ tok, Value.get rule "replace" = VString tok
                         ∧ Value.get rule "find" = VString tok) rules →
  ∃ st', foldM applyReplacement st rules = Ok st'
         ∧ content st' = content st
         ∧ pushIfChanged normalizedPath (content st) st' = None.
Proof.
  intros Hrules.
  assert (∃ st', foldM applyReplacement st rules = Ok st'
                 ∧ content st' = content st) as (st' & Hrun & Hsame).
  { revert st. induction Hrules as [|rule rules (tok & Hr & Hf) _ IH];
      intros st; [by exists st|].
    simpl. rewrite (applyReplacement_find st rule tok tok Hr Hf).
    case_bool_decide.
    - apply IH.
    - step_bind.
      destruct (IH (substitute st (JS.split (content st) tok) tok))
        as (st' & Hrun & Hsame).
      exists st'. split; [done|].
      by rewrite Hsame, substitute_content, join_split. }
  exists st'. split; [done|]. split; [done|].
  unfold pushIfChanged.
  rewrite (proj2 (streq_true (content st') (content st))) by done.
  by rewrite andb_false_r.
Qed.

(** X2: a literal rule whose non-empty token occurs replaces every
    segment boundary of the split by the replacement, marks the content
    as modified and adds the number of occurrences to the count. *)
Theorem find_present_token_is_replaced st rule find replaceValue i :
  Value.get rule "replace" = VString replaceValue →
  Value.get rule "find" = VString find →
  find ≠ [] →
  JS.indexOf (content st) find = Some i →
  applyReplacement st rule =
    Ok {| content := JS.join replaceValue (JS.split (content st) find);
          modified := true;
          replacementCount :=
            (replacementCount st
             + (Z.of_nat (length (JS.split (content st) find)) - 1))%Z |}
  ∧ (1 ≤ Z.of_nat (length (JS.split (content st) find)) - 1)%Z.
Proof.
  intros Hreplace Hfind Hne Hi.
  pose proof (split_present _ _ _ Hi Hne) as Hlen.
  rewrite (applyReplacement_find st rule find replaceValue) by done.
  rewrite bool_decide_eq_false_2 by lia.
  split; [|lia]. by erewrite substitute_present.
Qed.


(** A rule that returns either changed nothing at all or substituted at
    least once. *)
Lemma applyReplacement_step st rule st' :
  applyReplacement st rule = Ok st' →
  st' = st
  ∨ (modified st' = true
     ∧ (replacementCount st < replacementCount st')%Z).
Proof.
  unfold applyReplacement.
  destruct (throwIf _ RuleObjectError); step_bind; [|done].
  destruct (Value.get rule "replace") as [| | | |replaceValue| |];
    try done.
  destruct (Value.get rule "find") as [| | | |find| |] eqn:Hfind.
  5: { (* a literal rule *)
    case_bool_decide as Hone; [intros [= <-]; by left|].
    intros [= <-]. unfold substitute.
    destruct (0 <? _)%Z eqn:Hpos.
    - right. apply Z.ltb_lt in Hpos. simpl. split; [done | lia].
    - left. apply Z.ltb_ge in Hpos.
      assert (JS.split (content st) find = []) as Hnil.
      { destruct (JS.split (content st) find) as [|x [|y l]];
          simpl in *; [done | done | lia]. }
      rewrite Hnil. destruct find as [|c find].
      + destruct st as [[|x content0] m n]; [done | done].
      + by apply split_go_nonempty in Hnil. }
  all: destruct (Value.get rule "find_any") as [| | | | |find_any|];
    try done; unfold throwIf;
    case_bool_decide as Htokens; step_bind; try done;
    pose proof (chooseToken_spec (content st) (tokenList find_any)) as Hspec;
    destruct (chooseToken (content st) (tokenList find_any))
      as [[chosen i]|]; [|intros [= <-]; by left];
    destruct Hspec as (before & after & Hlist & Hi & _);
    destruct (JS.streq chosen []) eqn:Hempty; [intros [= <-]; by left|];
    apply streq_false in Hempty;
    intros [= <-]; right;
    rewrite (substitute_present st chosen i replaceValue Hi Hempty);
    pose proof (split_present _ _ _ Hi Hempty); simpl; split; [done | lia].
Qed.

(** X4: the bookkeeping of a directive's rules. From the start of the
    loop on, the count is never negative, the content is marked modified
    exactly when the count is positive, and the content differs from the
    original only when it is marked modified; so a file is pushed
    exactly when the content differs from the original. *)
Theorem rules_keep_the_books original rules st normalizedPath :
  foldM applyReplacement (initialEdit original) rules = Ok st →
  (0 ≤ replacementCount st)%Z
  ∧ (modified st = true ↔ (0 < replacementCount st)%Z)
  ∧ (content st ≠ original → modified st = true)
  ∧ pushIfChanged normalizedPath original st
    = if JS.streq (content st) original then None
      else Some (editedFile normalizedPath (content st)).
Proof.
  intros Hrun.
  assert (∀ st0,
            ((0 ≤ replacementCount st0)%Z
             ∧ (modified st0 = true ↔ (0 < replacementCount st0)%Z)
             ∧ (content st0 ≠ original → modified st0 = true)) →
            foldM applyReplacement st0 rules = Ok st →
            (0 ≤ replacementCount st)%Z
            ∧ (modified st = true ↔ (0 < replacementCount st)%Z)
            ∧ (content st ≠ original → modified st = true)) as Hinv.
  { clear Hrun. induction rules as [|rule rules IH]; intros st0 H0; simpl.
    - by intros [= <-].
    - destruct (applyReplacement st0 rule) as [st1|] eqn:Hstep;
        step_bind; [|done].
      apply IH. apply applyReplacement_step in Hstep as [-> | [Hm Hc]];
        [done|].
      destruct H0 as (Hpos & _ & _).
      split; [lia|]. split; [|done]. split; [lia | done]. }
  destruct (Hinv (initialEdit original)) as (Hpos & Hiff & Hchanged);
    [|done|].
  { simpl. split; [done|]. split; [|done]. split; [done | lia]. }
  split; [done|]. split; [done|]. split; [done|].
  unfold pushIfChanged.
  destruct (JS.streq (content st) original) eqn:Heq.
  - by rewrite andb_false_r.
  - apply streq_false in Heq. by rewrite (Hchanged Heq).
Qed.

End RuleFacts.

(* ================================================================== *)
(** * SafeReplace: more on the directives *)
(* ================================================================== *)

Section DirectiveFacts.

Implicit Types (scope : list jsstring) (scopeMap : gmap jsstring ScopeFile)
  (files entries : list value).

(** What a directive pushes: an edit of its normalized path, which does
    not begin with [../], lies within the scope and names a fetched
    file, to a content other than the fetched one. *)
Lemma applyDirective_pushed_edit scope scopeMap entry f :
  applyDirective scope scopeMap entry = Ok (Some f) →
  ∃ p c scopeFile,
    f = editedFile p c
    ∧ JS.startsWith p (js "../") = false
    ∧ isWithinScope scope p = true
    ∧ scopeMap !! p = Some scopeFile
    ∧ c ≠ sf_content scopeFile.
Proof.
  unfold applyDirective.
  destruct (Value.truthy entry); [|done].
  destruct (Value.get entry "path") as [| | | |entry_path| |]; try done.
  unfold throwIf.
  destruct (JS.startsWith _ (js "../")) eqn:Hescape; step_bind; [done|].
  destruct (isWithinScope scope _) eqn:Hscope; step_bind; [|done].
  destruct (scopeMap !! _) as [scopeFile|] eqn:Hfile; [|done].
  destruct (Value.get entry "replacements") as [| | | | |[|r rs]|];
    try done.
  destruct (foldM applyReplacement _ (r :: rs)) as [st|] eqn:Hrun;
    step_bind; [|done].
  unfold pushIfChanged.
  destruct (modified st); [|done].
  destruct (JS.streq (content st) (sf_content scopeFile)) eqn:Hsame;
    [done|].
  intros [= <-]. apply streq_false in Hsame.
  eexists _, _, scopeFile. repeat split; done.
Qed.

(** X5: SafeReplace pushes at most one file per directive, and every
    pushed file is an edit of a path that does not begin with [../], lies
    within the ticket's scope and names a fetched file, to a content
    that differs from the fetched one. *)
Theorem editedFiles_in_scope_and_changed scope scopeMap entries files :
  editedFiles scope scopeMap entries = Ok files →
  (length files ≤ length entries)%nat
  ∧ Forall (λ f, ∃ p c scopeFile,
                   f = editedFile p c
                   ∧ JS.startsWith p (js "../") = false
                   ∧ isWithinScope scope p = true
                   ∧ scopeMap !! p = Some scopeFile
                   ∧ c ≠ sf_content scopeFile) files.
Proof.
  unfold editedFiles.
  set (P := λ f, ∃ p c scopeFile,
                   f = editedFile p c
                   ∧ JS.startsWith p (js "../") = false
                   ∧ isWithinScope scope p = true
                   ∧ scopeMap !! p = Some scopeFile
                   ∧ c ≠ sf_content scopeFile).
  assert (∀ files0,
            Forall P files0 →
            foldM (λ files entry,
                     pushed ← applyDirective scope scopeMap entry;
                     Ok (files ++ option_list pushed))
              files0 entries = Ok files →
            (length files ≤ length files0 + length entries)%nat
            ∧ Forall P files) as Hall.
  { induction entries as [|entry entries IH]; intros files0 H0; simpl.
    - intros [= <-]. split; [lia | done].
    - destruct (applyDirective scope scopeMap entry) as [pushed|] eqn:Hd;
        step_bind; [|done].
      intros Hrest. apply IH in Hrest as [Hlen Hall].
      + split; [|done]. rewrite length_app in Hlen.
        destruct pushed; simpl in Hlen; lia.
      + apply Forall_app. split; [done|].
        destruct pushed as [f|]; simpl; [|constructor].
        constructor; [|constructor].
        by eapply applyDirective_pushed_edit. }
  intros Hrun. apply (Hall [] (Forall_nil_2 _) Hrun).
Qed.

(** Updating one key of an object leaves the others as they were. *)
Lemma lookup_update_ne key key' x fields :
  key' ≠ key →
  Value.lookup key' (Value.update key x fields) = Value.lookup key' fields.
Proof.
  intros Hne. induction fields as [|[k v] fields IH]; simpl.
  - by rewrite (proj2 (streq_false key key')).
  - destruct (JS.streq k key) eqn:Hk; simpl.
    + apply streq_true in Hk as ->.
      by rewrite (proj2 (streq_false key key')).
    + destruct (JS.streq k key'); [done | apply IH].
Qed.

Lemma lookup_update_eq key x fields :
  Value.lookup key (Value.update key x fields) = x.
Proof.
  induction fields as [|[k v] fields IH]; simpl.
  - by rewrite (proj2 (streq_true key key)).
  - destruct (JS.streq k key) eqn:Hk; simpl; rewrite Hk; [done | apply IH].
Qed.

(** One directive through the preset expansion: it comes back as it
    was, or with [replacements] set to the rules of its preset. *)
Lemma applyColorPreset_spec entry entry' :
  applyColorPreset entry = Ok entry' →
  entry' = entry
  ∨ ∃ fields generated,
      entry = VObject fields
      ∧ nonEmptyArray (Value.get entry "replacements") = false
      ∧ buildColorPresetReplacements (Value.get entry "color_preset")
        = Ok generated
      ∧ generated ≠ []
      ∧ entry' = VObject (Value.update (js "replacements")
                            (VArray generated) fields).
Proof.
  unfold applyColorPreset.
  destruct (negb (Value.truthy entry) || negb (Value.isObject entry));
    [intros [= <-]; by left|].
  destruct (nonEmptyArray (Value.get entry "replacements")) eqn:Hreps;
    [intros [= <-]; by left|].
  destruct (negb (Value.truthy (Value.get entry "color_preset")));
    [intros [= <-]; by left|].
  destruct (buildColorPresetReplacements _) as [generated|] eqn:Hgen;
    step_bind; [|done].
  destruct generated as [|g gs]; [intros [= <-]; by left|].
  destruct entry as [| | | | | |fields]; try (intros [= <-]; by left).
  intros [= <-]. right. by exists fields, (g :: gs).
Qed.

(** X6: the preset expansion returns one directive per directive, in
    order. Each keeps every key other than [replacements] ([path] among
    them); a directive that lists rules of its own is returned as it is,
    and one whose [replacements] change gets the non-empty list of rules
    its [color_preset] expands to. *)
Theorem applyColorPresets_keeps_directives replacements expanded :
  applyColorPresets replacements = Ok expanded →
  Forall2 (λ entry entry',
             (∀ key, js key ≠ js "replacements" →
                     Value.get entry' key = Value.get entry key)
             ∧ (nonEmptyArray (Value.get entry "replacements") = true →
                entry' = entry)
             ∧ (Value.get entry' "replacements"
                ≠ Value.get entry "replacements" →
                ∃ generated,
                  generated ≠ []
                  ∧ buildColorPresetReplacements
                      (Value.get entry "color_preset") = Ok generated
                  ∧ Value.get entry' "replacements" = VArray generated))
    replacements expanded.
Proof.
  intros Hrun. apply traverse_Ok in Hrun.
  eapply Forall2_impl; [exact Hrun|].
  intros entry entry' Hentry. simpl in Hentry.
  apply applyColorPreset_spec in Hentry
    as [-> | (fields & generated & -> & Hreps & Hgen & Hne & ->)].
  - repeat split; done.
  - split; [|split].
    + intros key Hkey. simpl. by apply lookup_update_ne.
    + intros Hown. congruence.
    + intros _. exists generated. split; [done|]. split; [done|].
      simpl. apply lookup_update_eq.
Qed.

End DirectiveFacts.

(* ================================================================== *)
(** * The generated-edit validator: what it lets through *)
(* ================================================================== *)

Section ValidatorFacts.

Implicit Types (scope : list jsstring) (file : value).

(** One entry through the validator's callback. *)
Lemma validateModelFile_Ok scope file candidate :
  validateModelFile scope file = Ok candidate →
  ∃ file_path,
    Value.get file "path" = VString file_path
    ∧ Value.get file "contents_base64" = VString (base64 candidate)
    ∧ path candidate = Path.normalize (JS.stripDotSlash file_path)
    ∧ JS.startsWith (path candidate) (js "../") = false
    ∧ isWithinScope scope (path candidate) = true
    ∧ 0 < Buffer.size (Buffer.fromBase64 (base64 candidate)) ≤ MAX_FILE_SIZE
    ∧ contents candidate
      = Buffer.toUtf8 (Buffer.fromBase64 (base64 candidate)).
Proof.
  unfold validateModelFile.
  destruct (Value.truthy file); [|done].
  destruct (Value.get file "path") as [| | | |file_path| |]; try done.
  destruct (Value.get file "contents_base64")
    as [| | | |contents_base64| |]; try done.
  unfold throwIf.
  destruct (JS.startsWith _ (js "../")) eqn:Hescape; step_bind; [done|].
  destruct (isWithinScope scope _) eqn:Hscope; step_bind; [|done].
  destruct (Buffer.size _ =? 0) eqn:Hempty; step_bind; [done|].
  destruct (MAX_FILE_SIZE <? _) eqn:Hlarge; step_bind; [done|].
  intros [= <-]. simpl. apply N.eqb_neq in Hempty. apply N.ltb_ge in Hlarge.
  exists file_path. repeat split; try done. lia.
Qed.

(** A list that passes the validator is a list of one to [MAX_FILES]
    entries on each of which the callback returned. *)
Lemma validateModelFiles_entries modelFiles scope candidates :
  validateModelFiles modelFiles scope = Ok candidates →
  ∃ files,
    modelFiles = VArray files
    ∧ (1 ≤ length candidates ≤ MAX_FILES)%nat
    ∧ Forall2 (λ file candidate, validateModelFile scope file = Ok candidate)
        files candidates.
Proof.
  unfold validateModelFiles.
  destruct modelFiles as [| | | | |[|f fs]|]; try done.
  unfold throwIf. case_bool_decide as Hmany; step_bind; [done|].
  intros Hrun. exists (f :: fs). split; [done|].
  pose proof (traverse_length _ _ _ Hrun) as Hlen.
  split; [rewrite Hlen; simpl in *; lia|].
  by apply traverse_Ok.
Qed.

(** X7: what the validator returns. There are as many CandidateFiles as
    entries, at least one and at most [MAX_FILES], in the order of the
    entries; each has the normalized path of its entry, which does not
    begin with [../] and lies within the scope; its [base64] is the
    entry's [contents_base64], which decodes to between 1 and
    [MAX_FILE_SIZE] bytes, and its contents are those bytes read as
    UTF-8. *)
Theorem validateModelFiles_Ok modelFiles scope candidates :
  validateModelFiles modelFiles scope = Ok candidates →
  ∃ files,
    modelFiles = VArray files
    ∧ (1 ≤ length candidates ≤ MAX_FILES)%nat
    ∧ Forall2 (λ file candidate,
                 ∃ file_path,
                   Value.get file "path" = VString file_path
                   ∧ Value.get file "contents_base64"
                     = VString (base64 candidate)
                   ∧ path candidate
                     = Path.normalize (JS.stripDotSlash file_path)
                   ∧ JS.startsWith (path candidate) (js "../") = false
                   ∧ isWithinScope scope (path candidate) = true
                   ∧ 0 < Buffer.size (Buffer.fromBase64 (base64 candidate))
                     ≤ MAX_FILE_SIZE
                   ∧ contents candidate
                     = Buffer.toUtf8 (Buffer.fromBase64 (base64 candidate)))
        files candidates.
Proof.
  intros Hvalid.
  apply validateModelFiles_entries in Hvalid as (files & -> & Hcount & Hall).
  exists files. split; [done|]. split; [done|].
  eapply Forall2_impl; [exact Hall|].
  intros file candidate. apply validateModelFile_Ok.
Qed.

(** X8: the validator is all or nothing: one entry that its callback
    refuses, anywhere in the list, and no CandidateFile is returned. *)
Theorem validateModelFiles_all_or_nothing modelFiles scope file e :
  file ∈ modelFiles →
  validateModelFile scope file = Err e →
  ∃ e', validateModelFiles (VArray modelFiles) scope = Err e'.
Proof.
  intros Hin Hfile. unfold validateModelFiles.
  destruct modelFiles as [|f fs]; [by apply elem_of_nil in Hin|].
  unfold throwIf. case_bool_decide; [by exists TooManyFilesError|].
  change (∃ e', traverse (validateModelFile scope) (f :: fs) = Err e').
  by eapply traverse_Err.
Qed.

End ValidatorFacts.

(* ================================================================== *)
(** * Sanity Rails: what passes *)
(* ================================================================== *)

Section SanityFacts.

Lemma existsb_includes text (anchors : list jsstring) :
  existsb (JS.includes text) anchors = true ↔
    ∃ anchor, anchor ∈ anchors ∧ is_Some (JS.indexOf text anchor).
Proof.
  rewrite existsb_exists. unfold JS.includes.
  split; intros (anchor & Hin & Hfound); exists anchor.
  - split; [by apply list_elem_of_In | by apply bool_decide_eq_true in Hfound].
  - split; [by apply list_elem_of_In | by apply bool_decide_eq_true].
Qed.

Lemma existsb_false_Forall {A : Type} (f : A → bool) (l : list A) :
  existsb f l = false ↔ Forall (λ x, f x = false) l.
Proof.
  induction l as [|x l IH]; simpl; [by split; [constructor|]|].
  rewrite orb_false_iff, IH. split.
  - intros [Hx Hl]. by constructor.
  - intros H. by apply Forall_cons in H.
Qed.

(** One file through the loop of Sanity Rails: it passes exactly when
    its text has from 1 to 200000 bytes, no denied code unit, and, under
    the two guarded paths, one of the export anchors; anything else
    throws the one Sanity Rails error. *)
Lemma sanityCheck_spec file :
  (sanityCheck file = Ok ()
   ↔ 0 < Buffer.byteLength (contents file) ≤ 200000
     ∧ Forall (λ c, SANITY_RAILS_INVALID_CHAR c = false) (contents file)
     ∧ (JS.endsWith (path file) (js "src/app/layout.tsx") = true →
        ∃ anchor, anchor ∈ ROOT_LAYOUT_EXPORT_ANCHORS
                  ∧ is_Some (JS.indexOf (contents file) anchor))
     ∧ (JS.endsWith (path file) (js "src/app/components/NowPlaying.tsx")
        = true →
        ∃ anchor, anchor ∈ NOW_PLAYING_EXPORT_ANCHORS
                  ∧ is_Some (JS.indexOf (contents file) anchor)))
  ∧ (sanityCheck file = Ok () ∨ sanityCheck file = Err SanityRailsError).
Proof.
  assert (sanityCheck file =
          if sizeCheckFails (Buffer.byteLength (contents file))
             || existsb SANITY_RAILS_INVALID_CHAR (contents file)
             || JS.endsWith (path file) (js "src/app/layout.tsx")
                && negb (existsb (JS.includes (contents file))
                           ROOT_LAYOUT_EXPORT_ANCHORS)
             || JS.endsWith (path file)
                  (js "src/app/components/NowPlaying.tsx")
                && negb (existsb (JS.includes (contents file))
                           NOW_PLAYING_EXPORT_ANCHORS)
          then Err SanityRailsError else Ok ()) as ->.
  { unfold sanityCheck, throwIf.
    destruct (sizeCheckFails _); [done|].
    destruct (existsb SANITY_RAILS_INVALID_CHAR _); [done|].
    destruct (JS.endsWith (path file) (js "src/app/layout.tsx")
              && negb _); [done|].
    by destruct (JS.endsWith (path file)
                   (js "src/app/components/NowPlaying.tsx") && negb _). }
  destruct (sizeCheckFails _) eqn:Hsize.
  { split; [|by right]. split; [done|]. intros [Hs _].
    apply sizeCheckFails_spec in Hs. congruence. }
  apply sizeCheckFails_spec in Hsize.
  destruct (existsb SANITY_RAILS_INVALID_CHAR _) eqn:Hchars.
  { split; [|by right]. split; [done|]. intros (_ & Hc & _).
    apply existsb_false_Forall in Hc. congruence. }
  apply existsb_false_Forall in Hchars.
  destruct (JS.endsWith (path file) (js "src/app/layout.tsx")
            && negb _) eqn:Hlayout.
  { split; [|by right]. split; [done|]. intros (_ & _ & Ha & _).
    apply andb_true_iff in Hlayout as [Hp Hn].
    apply existsb_includes in Ha; [|done].
    rewrite Ha in Hn. done. }
  destruct (JS.endsWith (path file) (js "src/app/components/NowPlaying.tsx")
            && negb _) eqn:Hplaying.
  { split; [|by right]. split; [done|]. intros (_ & _ & _ & Ha).
    apply andb_true_iff in Hplaying as [Hp Hn].
    apply existsb_includes in Ha; [|done].
    rewrite Ha in Hn. done. }
  split; [|by left]. split; [intros _|done].
  split; [done|]. split; [done|]. split.
  - intros Hp. rewrite Hp in Hlayout. apply existsb_includes.
    by apply negb_false_iff in Hlayout.
  - intros Hp. rewrite Hp in Hplaying. apply existsb_includes.
    by apply negb_false_iff in Hplaying.
Qed.

(** Sanity Rails throws one error only. *)
Lemma runSanityRails_error files :
  runSanityRails files = Ok () ∨ runSanityRails files = Err SanityRailsError.
Proof.
  unfold runSanityRails. induction files as [|file files IH]; simpl;
    [by left|].
  destruct (sanityCheck_spec file) as [_ [-> | ->]]; step_bind;
    [done | by right].
Qed.

(** X9: Sanity Rails passes a set of files exactly when every file has
    from 1 to 200000 bytes of UTF-8, holds none of the denied code units
    and, where its path ends in [src/app/layout.tsx] or
    [src/app/components/NowPlaying.tsx], contains one of that path's
    export anchors; otherwise it throws the Sanity Rails error, and
    nothing else. *)
Theorem runSanityRails_spec files :
  (runSanityRails files = Ok ()
   ↔ Forall (λ file,
               0 < Buffer.byteLength (contents file) ≤ 200000
               ∧ Forall (λ c, SANITY_RAILS_INVALID_CHAR c = false)
                   (contents file)
               ∧ (JS.endsWith (path file) (js "src/app/layout.tsx") = true →
                  ∃ anchor, anchor ∈ ROOT_LAYOUT_EXPORT_ANCHORS
                            ∧ is_Some (JS.indexOf (contents file) anchor))
               ∧ (JS.endsWith (path file)
                    (js "src/app/components/NowPlaying.tsx") = true →
                  ∃ anchor, anchor ∈ NOW_PLAYING_EXPORT_ANCHORS
                            ∧ is_Some (JS.indexOf (contents file) anchor)))
       files)
  ∧ (runSanityRails files = Ok ()
     ∨ runSanityRails files = Err SanityRailsError).
Proof.
  unfold runSanityRails.
  induction files as [|file files [IHiff IHor]]; simpl.
  - split; [|by left]. split; [constructor | done].
  - destruct (sanityCheck_spec file) as [Hiff [Hok | Herr]].
    + rewrite Hok. step_bind. split; [|done]. rewrite IHiff. split.
      * intros Hall. constructor; [by apply Hiff | done].
      * intros Hall. by apply Forall_cons in Hall as [_ Hall].
    + rewrite Herr. step_bind. split; [|by right]. split; [done|].
      intros Hall. apply Forall_cons in Hall as [Hfile _].
      apply Hiff in Hfile. congruence.
Qed.

End SanityFacts.

(* ================================================================== *)
(** * The run: which edits reach the commit *)
(* ================================================================== *)

Ltac step_bind_in H := cbv beta iota delta [mbind result_bind] in H.

Section RunFacts.

Implicit Types (ticket : TicketDocument) (scopeFiles : list ScopeFile)
  (callLLM : TicketDocument → list ScopeFile → result (list CandidateFile)).

(** X10: a ticket with a non-empty [safe_replace] list never consults
    the generative source: the run ends the same way whatever that
    source would have answered. *)
Theorem run_safe_replace_ignores_model
    callLLM callLLM' verifyStrict ticket scopeFiles :
  nonEmptyArray (safe_replace ticket) = true →
  run callLLM verifyStrict ticket scopeFiles
  = run callLLM' verifyStrict ticket scopeFiles.
Proof. intros Hsafe. unfold run. by rewrite Hsafe. Qed.

(** X11: Sanity Rails can only stop a run. With the strict flag on, the
    run ends as it does with the flag off, or it ends in the Sanity
    Rails error where it would otherwise have handed files to the
    commit. *)
Theorem run_strict_only_stops callLLM ticket scopeFiles :
  run callLLM true ticket scopeFiles = run callLLM false ticket scopeFiles
  ∨ (run callLLM true ticket scopeFiles = Aborted SanityRailsError
     ∧ ∃ files, run callLLM false ticket scopeFiles = HandedToCommit files).
Proof.
  unfold run.
  destruct (if nonEmptyArray (safe_replace ticket) then _ else _)
    as [[files|]|e]; [|by left..].
  destruct (runSanityRails_error files) as [-> | ->]; [by left|].
  right. eauto.
Qed.

(** When SafeReplace returns files, they are what the validator made of
    some list of entries. *)
Lemma safeReplace_validated ticket scopeFiles candidates :
  safeReplace ticket scopeFiles = Ok candidates →
  candidates = []
  ∨ ∃ files, validateModelFiles (VArray files) (scope ticket)
             = Ok candidates.
Proof.
  unfold safeReplace.
  destruct (safe_replace ticket) as [| | | | |[|r rs]|]; try done.
  destruct (applyColorPresets (r :: rs)); step_bind; [|done].
  destruct (editedFiles _ _ _) as [[|f fs]|]; step_bind; [| |done].
  - intros [= <-]. by left.
  - intros Hvalid. right. by exists (f :: fs).
Qed.

(** X12: whatever is handed to the commit went through the validator and,
    under the strict flag, through Sanity Rails. If the generative
    source returns only what [validateModelFiles] returned for the
    ticket's scope, as both providers do, then the files handed to the
    commit are at least one and at most [MAX_FILES], each with a path
    that does not begin with [../] and lies within the scope and a
    content that decodes from 1 to [MAX_FILE_SIZE] bytes; with the strict
    flag on they also pass Sanity Rails. *)
Theorem run_hands_over_validated_files
    callLLM verifyStrict ticket scopeFiles candidates :
  (∀ t s files, callLLM t s = Ok files →
                ∃ parsed, validateModelFiles parsed (scope t) = Ok files) →
  run callLLM verifyStrict ticket scopeFiles = HandedToCommit candidates →
  (1 ≤ length candidates ≤ MAX_FILES)%nat
  ∧ Forall (λ candidate,
              JS.startsWith (path candidate) (js "../") = false
              ∧ isWithinScope (scope ticket) (path candidate) = true
              ∧ 0 < Buffer.size (Buffer.fromBase64 (base64 candidate))
                ≤ MAX_FILE_SIZE
              ∧ contents candidate
                = Buffer.toUtf8 (Buffer.fromBase64 (base64 candidate)))
      candidates
  ∧ (verifyStrict = true → runSanityRails candidates = Ok ()).
Proof.
  intros Hmodel Hrun.
  assert ((∃ parsed, validateModelFiles parsed (scope ticket)
                     = Ok candidates)
          ∧ (verifyStrict = true → runSanityRails candidates = Ok ()))
    as [[parsed Hvalid] Hsanity].
  { unfold run in Hrun.
    destruct (nonEmptyArray (safe_replace ticket)).
    - destruct (safeReplace ticket scopeFiles) as [files|] eqn:Hsafe;
        step_bind_in Hrun; [|done].
      apply safeReplace_validated in Hsafe as [-> | [pushed Hvalid]];
        [done|].
      destruct files as [|f fs]; [done|].
      destruct verifyStrict.
      + destruct (runSanityRails (f :: fs)) as [[]|] eqn:Hs; [|done].
        injection Hrun as <-. split; [by exists (VArray pushed) | done].
      + injection Hrun as <-. split; [by exists (VArray pushed) | done].
    - destruct (callLLM ticket scopeFiles) as [files|] eqn:Hllm;
        step_bind_in Hrun; [|done].
      apply Hmodel in Hllm.
      destruct verifyStrict.
      + destruct (runSanityRails files) as [[]|] eqn:Hs; [|done].
        injection Hrun as <-. done.
      + injection Hrun as <-. done. }
  apply validateModelFiles_entries in Hvalid
    as (files & -> & Hcount & Hfiles).
  split; [done|]. split; [|done].
  clear -Hfiles. induction Hfiles as [|file candidate files cs H _ IH];
    [constructor|].
  constructor; [|done].
  apply validateModelFile_Ok in H
    as (file_path & _ & _ & _ & Hesc & Hscope & Hsize & Hc). done.
Qed.

End RunFacts.

(* ================================================================== *)
(** * The ticket parser: required fields and the scope *)
(* ================================================================== *)

Section ParserFacts.

(** The loop over the required keys stops at the first falsy one. *)
Lemma requiredKeys_first_missing ticket (before after : list string) key :
  Forall (λ k, Value.truthy (Value.get ticket k) = true) before →
  Value.truthy (Value.get ticket key) = false →
  foldM (λ _ key,
           throwIf (negb (Value.truthy (Value.get ticket key)))
             (TicketFieldError (js key)))
    () (before ++ key :: after)
  = Err (TicketFieldError (js key)).
Proof.
  intros Hbefore Hkey. induction Hbefore as [|k before Hk _ IH]; simpl.
  - by rewrite Hkey.
  - rewrite Hk. simpl. apply IH.
Qed.

(** X13: a loaded ticket that is no object is refused as such; an object
    in which a required field is missing or falsy is refused with the
    name of the first such field, in the order [title], [why], [scope],
    [dod], whatever else it holds. *)
Theorem parseTicket_first_missing_field ticket before key after :
  requiredKeys = before ++ key :: after →
  Forall (λ k, Value.truthy (Value.get ticket k) = true) before →
  Value.truthy (Value.get ticket key) = false →
  parseTicket ticket
  = if Value.truthy ticket && Value.isObject ticket
    then Err (TicketFieldError (js key))
    else Err TicketParseError.
Proof.
  intros Hkeys Hbefore Hkey. unfold parseTicket.
  destruct (Value.truthy ticket); [|done].
  destruct (Value.isObject ticket); [|done].
  simpl throwIf. step_bind. rewrite Hkeys.
  by rewrite (requiredKeys_first_missing ticket before after key).
Qed.

Lemma requiredKeys_present ticket (keys : list string) :
  foldM (λ _ key,
           throwIf (negb (Value.truthy (Value.get ticket key)))
             (TicketFieldError (js key)))
    () keys = Ok () →
  Forall (λ k, Value.truthy (Value.get ticket k) = true) keys.
Proof.
  induction keys as [|k keys IH]; simpl; [constructor|].
  destruct (Value.truthy (Value.get ticket k)) eqn:Hk; simpl; [|done].
  intros Hrest. constructor; [done | by apply IH].
Qed.

(** X14: a ticket that parses is an object whose [title], [why] and
    [dod] are truthy and come back as loaded; its scope was a non-empty
    list, and the parsed scope holds, entry by entry and in order, what
    the normalization returned for each; [guardrails] is falsy or a
    list, and [safe_replace] comes back as loaded. *)
Theorem parseTicket_Ok ticket doc :
  parseTicket ticket = Ok doc →
  Value.isObject ticket = true
  ∧ title doc = Value.get ticket "title"
  ∧ why doc = Value.get ticket "why"
  ∧ dod doc = Value.get ticket "dod"
  ∧ Value.truthy (title doc) = true
  ∧ Value.truthy (why doc) = true
  ∧ Value.truthy (dod doc) = true
  ∧ (∃ entries,
       Value.get ticket "scope" = VArray entries
       ∧ entries ≠ []
       ∧ Forall2 (λ entry scopePath, normalizeScopeEntry entry = Ok scopePath)
           entries (scope doc))
  ∧ guardrails doc = Value.get ticket "guardrails"
  ∧ (Value.truthy (guardrails doc) = true → ∃ l, guardrails doc = VArray l)
  ∧ safe_replace doc = Value.get ticket "safe_replace".
Proof.
  unfold parseTicket.
  destruct (Value.truthy ticket); [|done].
  destruct (Value.isObject ticket); [|done].
  simpl throwIf. step_bind.
  destruct (foldM _ () requiredKeys) as [[]|] eqn:Hkeys; step_bind; [|done].
  apply requiredKeys_present in Hkeys.
  apply Forall_cons in Hkeys as [Htitle Hkeys].
  apply Forall_cons in Hkeys as [Hwhy Hkeys].
  apply Forall_cons in Hkeys as [_ Hkeys].
  apply Forall_cons in Hkeys as [Hdod _].
  destruct (Value.get ticket "scope") as [| | | | |[|e es]|]; try done.
  destruct (traverse normalizeScopeEntry (e :: es)) as [entries|] eqn:Hs;
    step_bind; [|done].
  unfold throwIf.
  destruct (Value.truthy (Value.get ticket "guardrails") && negb _)
    eqn:Hguard; step_bind; [done|].
  intros [= <-]. cbn [title why dod scope guardrails safe_replace].
  repeat split; try done.
  - exists (e :: es). split; [done|]. split; [done|]. by apply traverse_Ok.
  - intros Htruthy. rewrite Htruthy in Hguard.
    destruct (Value.get ticket "guardrails"); try done. eauto.
Qed.

(** The scope of a ticket that parses: what the normalization returned
    for each declared entry. *)
Lemma parseTicket_scope_entries ticket doc :
  parseTicket ticket = Ok doc →
  ∃ entries,
    Value.get ticket "scope" = VArray entries
    ∧ Forall2 (λ entry scopePath, normalizeScopeEntry entry = Ok scopePath)
        entries (scope doc).
Proof.
  unfold parseTicket.
  destruct (throwIf _ TicketParseError); step_bind; [|done].
  destruct (foldM _ () requiredKeys); step_bind; [|done].
  destruct (Value.get ticket "scope") as [| | | | |[|e es]|]; try done.
  destruct (traverse normalizeScopeEntry (e :: es)) as [entries|] eqn:Hs;
    step_bind; [|done].
  destruct (throwIf _ GuardrailsError); step_bind; [|done].
  intros [= <-]. cbn [scope]. exists (e :: es). split; [done|].
  by apply traverse_Ok.
Qed.

(** A declared entry that ends in a separator stays a directory entry. *)
Lemma normalizeScopeEntry_directory e scopePath :
  normalizeScopeEntry (VString e) = Ok scopePath →
  JS.endsWith (JS.trim e) Path.slash = true →
  JS.endsWith scopePath Path.slash = true.
Proof.
  unfold normalizeScopeEntry.
  destruct (JS.streq (JS.trim e) []); [done|].
  intros Hok Hdir. rewrite Hdir in Hok.
  destruct (JS.startsWith _ (js "../")); [done|].
  injection Hok as <-. apply endsWith_suffix. eauto.
Qed.

End ParserFacts.

(* ================================================================== *)
(** * Fetching the scope: files, directories, look-ups *)
(* ================================================================== *)

Section FetchFacts.

Implicit Types (getContent : jsstring → contentResponse)
  (scope : list jsstring) (files : list ScopeFile).

(** A fetch that returns has walked the whole scope, and met no entry
    marked as a directory. *)
Lemma fetchScopeFiles_paths getContent scope files :
  fetchScopeFiles getContent scope = inr files →
  map sf_path files = scope
  ∧ Forall (λ scopePath, JS.endsWith scopePath Path.slash = false) scope.
Proof.
  revert files. induction scope as [|scopePath scope IH]; intros files; simpl.
  - intros [= <-]. split; constructor.
  - destruct (fetchScopeFile getContent scopePath) as [|file] eqn:Hfile;
      [done|].
    destruct (fetchScopeFiles getContent scope) as [|rest]; [done|].
    intros [= <-]. destruct (IH rest eq_refl) as (Hpaths & Hdirs).
    unfold fetchScopeFile in Hfile.
    destruct (JS.endsWith scopePath Path.slash) eqn:Hdir; [done|].
    destruct (getContent scopePath) as [status| |content encoding sha];
      [by destruct (status =? 404) | done |].
    destruct (negb _); [done|]. injection Hfile as <-. simpl.
    split; [by rewrite Hpaths | by constructor].
Qed.

(** X15: a fetch that returns has fetched every scope entry, in order:
    the files carry the scope's paths one for one, no entry is marked as
    a directory, and every file holds the decoded text and the version
    token the collaborator gave for its path. *)
Theorem fetchScopeFiles_Ok getContent scope files :
  fetchScopeFiles getContent scope = inr files →
  map sf_path files = scope
  ∧ Forall (λ scopePath, JS.endsWith scopePath Path.slash = false) scope
  ∧ Forall (λ file,
              ∃ content,
                getContent (sf_path file)
                = FileData content (js "base64") (sf_sha file)
                ∧ sf_content file
                  = Buffer.toUtf8 (Buffer.fromBase64 content)) files.
Proof.
  revert files. induction scope as [|scopePath scope IH]; intros files; simpl.
  - intros [= <-]. repeat split; constructor.
  - destruct (fetchScopeFile getContent scopePath) as [|file] eqn:Hfile;
      [done|].
    destruct (fetchScopeFiles getContent scope) as [|rest]; [done|].
    intros [= <-]. destruct (IH rest eq_refl) as (Hpaths & Hdirs & Hdata).
    unfold fetchScopeFile in Hfile.
    destruct (JS.endsWith scopePath Path.slash) eqn:Hdir; [done|].
    destruct (getContent scopePath) as [status| |content encoding sha]
      eqn:Hget; [by destruct (status =? 404) | done |].
    destruct (JS.streq encoding (js "base64")) eqn:Henc; [|done].
    apply streq_true in Henc as ->. injection Hfile as <-. simpl.
    split; [by rewrite Hpaths|]. split; [by constructor|].
    constructor; [|done]. simpl. eauto.
Qed.

(** X16: a scope with an entry marked as a directory is never fetched,
    whatever the collaborator answers. *)
Theorem fetchScopeFiles_directory getContent scope scopePath :
  scopePath ∈ scope →
  JS.endsWith scopePath Path.slash = true →
  ∃ e, fetchScopeFiles getContent scope = inl e.
Proof.
  intros Hin Hdir. induction scope as [|p scope IH];
    [by apply elem_of_nil in Hin|].
  simpl. apply elem_of_cons in Hin as [<- | Hin].
  - unfold fetchScopeFile. rewrite Hdir. eauto.
  - destruct (fetchScopeFile getContent p); [eauto|].
    destruct (IH Hin) as [e ->]. eauto.
Qed.

(** X17: a ticket may declare a directory, and parse; its run ends at the
    fetch. If a declared scope entry, trimmed, ends in a separator, the
    parsed scope cannot be fetched, whatever the collaborator answers. *)
Theorem declared_directory_is_never_fetched
    getContent ticket doc entries e :
  parseTicket ticket = Ok doc →
  Value.get ticket "scope" = VArray entries →
  VString e ∈ entries →
  JS.endsWith (JS.trim e) Path.slash = true →
  ∃ err, fetchScopeFiles getContent (scope doc) = inl err.
Proof.
  intros Hparse Hscope Hin Hdir.
  apply parseTicket_scope_entries in Hparse as (entries' & Hscope' & Hall).
  rewrite Hscope in Hscope'. injection Hscope' as <-.
  assert (∃ scopePath, scopePath ∈ scope doc
                       ∧ normalizeScopeEntry (VString e) = Ok scopePath)
    as (scopePath & Hpath & Hnorm).
  { clear -Hin Hall. induction Hall as [|x y l l' Hxy _ IH];
      [by apply elem_of_nil in Hin|].
    apply elem_of_cons in Hin as [<- | Hin].
    - exists y. split; [by apply elem_of_cons; left | done].
    - destruct (IH Hin) as (p & Hp & Hn). exists p.
      split; [by apply elem_of_cons; right | done]. }
  destruct (fetchScopeFiles getContent (scope doc)) as [err|files] eqn:Hfetch;
    [eauto|].
  apply fetchScopeFiles_paths in Hfetch as [_ Hfiles].
  rewrite Forall_forall in Hfiles.
  pose proof (normalizeScopeEntry_directory _ _ Hnorm Hdir) as Hmarked.
  rewrite (Hfiles _ Hpath) in Hmarked. done.
Qed.

(** X18: SafeReplace finds every fetched file under its normalized path;
    where several files share a normalized path, the file found is one
    of them. *)
Theorem scopeMapOf_lookup files file :
  file ∈ files →
  ∃ found,
    scopeMapOf files !! Path.normalize (sf_path file) = Some found
    ∧ found ∈ files
    ∧ Path.normalize (sf_path found) = Path.normalize (sf_path file).
Proof.
  unfold scopeMapOf. intros Hin.
  induction files as [|f files IH] using rev_ind;
    [by apply elem_of_nil in Hin|].
  rewrite foldl_app. simpl.
  destruct (decide (Path.normalize (sf_path f)
                    = Path.normalize (sf_path file))) as [Heq | Hne].
  - exists f. rewrite Heq, lookup_insert_eq.
    split; [done|]. split; [|done].
    apply elem_of_app. right. by apply list_elem_of_singleton.
  - rewrite lookup_insert_ne by done.
    apply elem_of_app in Hin as [Hin | Hin].
    + destruct (IH Hin) as (found & Hfound & Hmem & Hkey).
      exists found. split; [done|]. split; [|done].
      apply elem_of_app. by left.
    + apply list_elem_of_singleton in Hin as ->. done.
Qed.

(** The keys of the look-up are the normalized paths of the files. *)
Lemma scopeMapOf_Some files p found :
  scopeMapOf files !! p = Some found →
  found ∈ files ∧ Path.normalize (sf_path found) = p.
Proof.
  unfold scopeMapOf.
  induction files as [|f files IH] using rev_ind; [done|].
  rewrite foldl_app. simpl.
  destruct (decide (Path.normalize (sf_path f) = p)) as [<- | Hne].
  - rewrite lookup_insert_eq. intros [= <-].
    split; [|done]. apply elem_of_app. right.
    by apply list_elem_of_singleton.
  - rewrite lookup_insert_ne by done. intros Hfound.
    destruct (IH Hfound) as [Hmem Hkey]. split; [|done].
    apply elem_of_app. by left.
Qed.

End FetchFacts.

(* ================================================================== *)
(** * Branch names: the slug *)
(* ================================================================== *)

Section SlugFacts.

Implicit Types (s l : jsstring).

Lemma dashRuns_chars inRun s :
  Forall (λ c, isSlugChar c = true ∨ c = DASH) (dashRuns inRun s).
Proof.
  revert inRun. induction s as [|c s IH]; intros inRun; simpl; [constructor|].
  destruct (isSlugChar c) eqn:Hc; [constructor; [by left | apply IH]|].
  destruct inRun; [apply IH|]. constructor; [by right | apply IH].
Qed.

(** Within a run, what is written next is no dash. *)
Lemma dashRuns_head s : head (dashRuns true s) ≠ Some DASH.
Proof.
  induction s as [|c s IH]; simpl; [done|].
  destruct (isSlugChar c) eqn:Hc; [|done].
  simpl. intros [= ->]. done.
Qed.

Lemma dashRuns_no_double inRun s pre post :
  dashRuns inRun s ≠ pre ++ [DASH; DASH] ++ post.
Proof.
  revert inRun pre. induction s as [|c s IH]; intros inRun pre; simpl.
  - by destruct pre.
  - destruct (isSlugChar c) eqn:Hc.
    + destruct pre as [|x pre]; simpl.
      * intros [= -> _]. done.
      * intros [= _ Hrest]. by eapply IH.
    + destruct inRun; [apply IH|].
      destruct pre as [|x pre]; simpl.
      * intros [= Hrest]. pose proof (dashRuns_head s) as Hhead.
        rewrite Hrest in Hhead. done.
      * intros [= _ Hrest]. by eapply IH.
Qed.

(** Dropping the leading dashes leaves a tail that begins with none. *)
Lemma dropDashes_spec l :
  ∃ dashes, l = dashes ++ dropDashes l ∧ head (dropDashes l) ≠ Some DASH.
Proof.
  induction l as [|c l (dashes & Hl & Hhead)]; simpl.
  - by exists [].
  - destruct (c =? DASH) eqn:Hc.
    + exists (c :: dashes). split; [by rewrite Hl at 1 | done].
    + exists []. split; [done|]. simpl. intros [= ->]. done.
Qed.

(** What is left after stripping is a stretch of the string, and begins
    with no dash. *)
Lemma stripDashes_spec l :
  ∃ pre post,
    l = pre ++ stripDashes l ++ post
    ∧ head (stripDashes l) ≠ Some DASH.
Proof.
  unfold stripDashes.
  destruct (dropDashes_spec l) as (pre & Hl & Hhead).
  destruct (dropDashes_spec (reverse (dropDashes l))) as (post & Hr & _).
  exists pre, (reverse post). split.
  - rewrite <- reverse_app, <- Hr, reverse_involutive. done.
  - assert (dropDashes l
            = reverse (dropDashes (reverse (dropDashes l))) ++ reverse post)
      as Hd.
    { by rewrite <- reverse_app, <- Hr, reverse_involutive. }
    destruct (reverse (dropDashes (reverse (dropDashes l)))) as [|x kept];
      [done|].
    rewrite Hd in Hhead. done.
Qed.

(** X19: a slug is never empty and never longer than 40 units; it holds
    only [a-z], [0-9] and dashes, does not begin with a dash and has no
    two dashes in a row; without any letter or digit to keep, it is
    [ticket]. This holds for any case mapping. *)
Theorem slugify_spec (toLowerCase : jsstring → jsstring) value :
  let slug := slugify toLowerCase value in
  slug ≠ []
  ∧ (length slug ≤ 40)%nat
  ∧ Forall (λ c, isSlugChar c = true ∨ c = DASH) slug
  ∧ head slug ≠ Some DASH
  ∧ (∀ pre post, slug ≠ pre ++ [DASH; DASH] ++ post)
  ∧ (Forall (λ c, isSlugChar c = false) (toLowerCase value) →
     slug = js "ticket").
Proof.
  cbv zeta. unfold slugify.
  set (runs := dashRuns false (toLowerCase value)).
  destruct (stripDashes_spec runs) as (pre & post & Hruns & Hhead).
  assert (stripDashes runs
          = take 40 (stripDashes runs) ++ drop 40 (stripDashes runs))
    as Hsplit by (by rewrite take_drop).
  destruct (take 40 (stripDashes runs)) as [|c slug] eqn:Htake.
  - split; [done|]. split; [simpl; lia|].
    split; [repeat constructor; by left|]. split; [done|]. split.
    + intros pre' post'. vm_compute.
      destruct pre' as [|? [|? [|? [|? [|? [|? [|? ?]]]]]]]; simpl;
        intros Heq; try discriminate Heq.
    + done.
  - split; [done|]. split; [rewrite <- Htake; rewrite length_take; lia|].
    split; [|split; [|split]].
    + pose proof (dashRuns_chars false (toLowerCase value)) as Hchars.
      fold runs in Hchars. rewrite Hruns, Hsplit in Hchars.
      apply Forall_app in Hchars as [_ Hchars].
      apply Forall_app in Hchars as [Hchars _].
      by apply Forall_app in Hchars as [Hchars _].
    + rewrite Hsplit in Hhead. done.
    + intros pre' post' Hdouble.
      apply (dashRuns_no_double false (toLowerCase value)
               (pre ++ pre') (post' ++ drop 40 (stripDashes runs) ++ post)).
      fold runs. rewrite Hruns at 1. rewrite Hsplit at 1. rewrite Hdouble.
      by rewrite <- !app_assoc.
    + intros Hnone. exfalso.
      assert (∀ s, Forall (λ c, isSlugChar c = false) s →
                   Forall (λ c, c = DASH) (dashRuns false s)
                   ∧ Forall (λ c, c = DASH) (dashRuns true s)) as Hdashes.
      { induction 1 as [|x s Hx _ [IH1 IH2]]; simpl; [done|].
        rewrite Hx. split; [by constructor | done]. }
      destruct (Hdashes _ Hnone) as [Hall _]. fold runs in Hall.
      rewrite Hruns, Hsplit in Hall.
      apply Forall_app in Hall as [_ Hall].
      apply Forall_app in Hall as [Hall _].
      apply Forall_cons in Hall as [-> _].
      rewrite Hsplit in Hhead. done.
Qed.

End SlugFacts.

(* ================================================================== *)
(** * Buffers: text through UTF-8 *)
(* ================================================================== *)

(** Settling the comparisons of a goal by arithmetic. *)
Ltac decide_cmp :=
  repeat progress
    (repeat match goal with
            | |- context [?a <? ?b] =>
                first [ rewrite (proj2 (N.ltb_lt a b)) by lia
                      | rewrite (proj2 (N.ltb_ge a b)) by lia ]
            | |- context [?a <=? ?b] =>
                first [ rewrite (proj2 (N.leb_le a b)) by lia
                      | rewrite (proj2 (N.leb_gt a b)) by lia ]
            | |- context [?a =? ?b] =>
                first [ rewrite (proj2 (N.eqb_eq a b)) by lia
                      | rewrite (proj2 (N.eqb_neq a b)) by lia ]
            end;
     cbn [andb orb negb]; cbv beta iota).

Section Utf8.

Implicit Types (b : list N) (s t : jsstring).

Lemma continuation_mod r : r < 64 → (0x80 + r) `mod` 64 = r.
Proof. intros Hr. symmetry. apply (N.mod_unique _ 64 2); lia. Qed.

Lemma decode_1 c b : c < 0x80 → Buffer.decode None (c :: b) = c :: Buffer.decode None b.
Proof.
  intros Hc. cbn [Buffer.decode]. unfold Buffer.lead.
  by rewrite (proj2 (N.ltb_lt c 0x80)).
Qed.

Lemma decode_2 q r b :
  2 ≤ q < 32 → r < 64 →
  Buffer.decode None (0xC0 + q :: 0x80 + r :: b)
  = Buffer.utf16 (q * 64 + r) ++ Buffer.decode None b.
Proof.
  intros Hq Hr. cbn [Buffer.decode]. unfold Buffer.lead.
  rewrite continuation_mod by done.
  replace (0xC0 + q - 0xC0) with q by lia.
  decide_cmp. reflexivity.
Qed.


Lemma decode_3 q2 r2 r1 b :
  q2 < 16 → r2 < 64 → r1 < 64 →
  (q2 = 0 → 32 ≤ r2) → (q2 = 13 → r2 < 32) →
  Buffer.decode None (0xE0 + q2 :: 0x80 + r2 :: 0x80 + r1 :: b)
  = Buffer.utf16 ((q2 * 64 + r2) * 64 + r1) ++ Buffer.decode None b.
Proof.
  intros Hq Hr2 Hr1 Hlow Hhigh. cbn [Buffer.decode]. unfold Buffer.lead.
  rewrite !continuation_mod by done.
  replace (0xE0 + q2 - 0xE0) with q2 by lia.
  destruct (N.eq_dec q2 0) as [-> | H0]; [specialize (Hlow eq_refl)|];
    [decide_cmp; reflexivity|].
  destruct (N.eq_dec q2 13) as [-> | H13]; [specialize (Hhigh eq_refl)|];
    decide_cmp; reflexivity.
Qed.

Lemma decode_4 q3 r3 r2 r1 b :
  q3 ≤ 4 → r3 < 64 → r2 < 64 → r1 < 64 →
  (q3 = 0 → 16 ≤ r3) → (q3 = 4 → r3 < 16) →
  Buffer.decode None
    (0xF0 + q3 :: 0x80 + r3 :: 0x80 + r2 :: 0x80 + r1 :: b)
  = Buffer.utf16 (((q3 * 64 + r3) * 64 + r2) * 64 + r1)
    ++ Buffer.decode None b.
Proof.
  intros Hq Hr3 Hr2 Hr1 Hlow Hhigh. cbn [Buffer.decode]. unfold Buffer.lead.
  rewrite !continuation_mod by done.
  replace (0xF0 + q3 - 0xF0) with q3 by lia.
  destruct (N.eq_dec q3 0) as [-> | H0]; [specialize (Hlow eq_refl)|];
    [decide_cmp; reflexivity|].
  destruct (N.eq_dec q3 4) as [-> | H4]; [specialize (Hhigh eq_refl)|];
    decide_cmp; reflexivity.
Qed.

(** The base-64 digits of a code point. *)
Lemma codepoint_digits cp :
  ∃ q3 r3 r2 r1,
    r3 < 64 ∧ r2 < 64 ∧ r1 < 64
    ∧ cp = ((q3 * 64 + r3) * 64 + r2) * 64 + r1
    ∧ cp / 64 = (q3 * 64 + r3) * 64 + r2
    ∧ cp `mod` 64 = r1
    ∧ (cp / 64) `mod` 64 = r2
    ∧ cp / 4096 = q3 * 64 + r3
    ∧ (cp / 4096) `mod` 64 = r3
    ∧ cp / 262144 = q3.
Proof.
  replace (cp / 262144) with (cp / 64 / 64 / 64)
    by (rewrite !N.Div0.div_div; reflexivity).
  replace (cp / 4096) with (cp / 64 / 64)
    by (rewrite !N.Div0.div_div; reflexivity).
  pose proof (N.div_mod cp 64 ltac:(done)) as H1.
  pose proof (N.mod_upper_bound cp 64 ltac:(done)) as B1.
  pose proof (N.div_mod (cp / 64) 64 ltac:(done)) as H2.
  pose proof (N.mod_upper_bound (cp / 64) 64 ltac:(done)) as B2.
  pose proof (N.div_mod (cp / 64 / 64) 64 ltac:(done)) as H3.
  pose proof (N.mod_upper_bound (cp / 64 / 64) 64 ltac:(done)) as B3.
  exists (cp / 64 / 64 / 64), ((cp / 64 / 64) `mod` 64),
    ((cp / 64) `mod` 64), (cp `mod` 64).
  set (q3 := cp / 64 / 64 / 64) in *.
  set (r3 := (cp / 64 / 64) `mod` 64) in *.
  set (q2 := cp / 64 / 64) in *.
  set (r2 := (cp / 64) `mod` 64) in *.
  set (q1 := cp / 64) in *.
  set (r1 := cp `mod` 64) in *.
  clearbody q3 r3 q2 r2 q1 r1. repeat split; lia.
Qed.

Lemma decode_encodeCodePoint cp b :
  cp < 0xD800 ∨ 0xE000 ≤ cp < 0x110000 →
  Buffer.decode None (Buffer.encodeCodePoint cp ++ b)
  = Buffer.utf16 cp ++ Buffer.decode None b.
Proof.
  intros Hscalar. unfold Buffer.encodeCodePoint.
  destruct (codepoint_digits cp)
    as (q3 & r3 & r2 & r1 & B3 & B2 & B1 & Hcp & -> & -> & -> & -> & -> & ->).
  destruct (N.ltb_spec cp 0x80) as [H7|H7].
  { cbn [app]. rewrite decode_1 by done. unfold Buffer.utf16.
    by rewrite (proj2 (N.ltb_lt cp 0x10000)) by lia. }
  destruct (N.ltb_spec cp 0x800) as [H11|H11].
  { cbn [app]. rewrite decode_2 by lia. do 2 f_equal. lia. }
  destruct (N.ltb_spec cp 0x10000) as [H16|H16].
  { cbn [app]. rewrite decode_3 by lia. do 2 f_equal. lia. }
  cbn [app]. rewrite decode_4 by lia. do 2 f_equal. lia.
Qed.

Lemma fromUtf8_plain c rest :
  c < 0xD800 ∨ 0xE000 ≤ c →
  Buffer.fromUtf8 (c :: rest)
  = Buffer.encodeCodePoint c ++ Buffer.fromUtf8 rest.
Proof.
  intros Hc. cbn [Buffer.fromUtf8].
  unfold Buffer.isHighSurrogate, Buffer.isLowSurrogate.
  destruct Hc; decide_cmp; reflexivity.
Qed.

Lemma fromUtf8_utf16 cp t :
  cp < 0xD800 ∨ 0xE000 ≤ cp < 0x110000 →
  Buffer.fromUtf8 (Buffer.utf16 cp ++ t)
  = Buffer.encodeCodePoint cp ++ Buffer.fromUtf8 t.
Proof.
  intros Hscalar. unfold Buffer.utf16.
  destruct (N.ltb_spec cp 0x10000) as [Hbmp | Hastral].
  - cbn [app]. apply fromUtf8_plain. lia.
  - cbn [app Buffer.fromUtf8].
    pose proof (N.div_mod (cp - 0x10000) 1024 ltac:(done)) as Hdm.
    pose proof (N.mod_upper_bound (cp - 0x10000) 1024 ltac:(done)) as Hr.
    set (hi := (cp - 0x10000) / 1024) in *.
    set (lo := (cp - 0x10000) `mod` 1024) in *. clearbody hi lo.
    unfold Buffer.isHighSurrogate, Buffer.isLowSurrogate.
    decide_cmp. do 2 f_equal. lia.
Qed.

(** Text without surrogates comes back from its UTF-8 form as it was. *)
Lemma toUtf8_fromUtf8 s :
  Forall (λ c, c < 0xD800 ∨ 0xE000 ≤ c < 0x10000) s →
  Buffer.toUtf8 (Buffer.fromUtf8 s) = s.
Proof.
  unfold Buffer.toUtf8. induction 1 as [|c s Hc _ IH]; [done|].
  rewrite fromUtf8_plain by lia.
  rewrite decode_encodeCodePoint by lia.
  unfold Buffer.utf16. rewrite (proj2 (N.ltb_lt c 0x10000)) by lia.
  simpl. by rewrite IH.
Qed.

(** Encoding, decoding and encoding again gives the bytes of the first
    encoding: lone surrogates are written as U+FFFD both times. *)
Lemma fromUtf8_toUtf8_fromUtf8 s :
  Forall (λ c, c < 0x10000) s →
  Buffer.fromUtf8 (Buffer.toUtf8 (Buffer.fromUtf8 s)) = Buffer.fromUtf8 s.
Proof.
  unfold Buffer.toUtf8.
  assert (∀ n s, (length s ≤ n)%nat → Forall (λ c, c < 0x10000) s →
            Buffer.fromUtf8 (Buffer.decode None (Buffer.fromUtf8 s))
            = Buffer.fromUtf8 s) as Hall; [|by eapply Hall].
  clear s. induction n as [|n IH]; intros s Hlen Hunits.
  - destruct s; [done | simpl in Hlen |- *; lia].
  - destruct s as [|c rest]; [done|].
    apply Forall_cons in Hunits as [Hc Hrest].
    assert (∀ cp t,
              (cp < 0xD800 ∨ 0xE000 ≤ cp < 0x110000) →
              (length t ≤ n)%nat → Forall (λ c, c < 0x10000) t →
              Buffer.fromUtf8
                (Buffer.decode None
                   (Buffer.encodeCodePoint cp ++ Buffer.fromUtf8 t))
              = Buffer.encodeCodePoint cp ++ Buffer.fromUtf8 t) as Hstep.
    { intros cp t Hcp Ht Hunits.
      rewrite decode_encodeCodePoint, fromUtf8_utf16 by done.
      by rewrite IH. }
    cbn [Buffer.fromUtf8].
    destruct (Buffer.isHighSurrogate c) eqn:Hhigh.
    + destruct rest as [|d rest'].
      * rewrite <- (app_nil_r (Buffer.encodeCodePoint _)).
        apply (Hstep _ []); [unfold Buffer.REPLACEMENT; lia | simpl; lia |
                             constructor].
      * apply Forall_cons in Hrest as [Hd Hrest'].
        destruct (Buffer.isLowSurrogate d) eqn:Hlow.
        -- apply Hstep; [|simpl in Hlen |- *; lia | done].
           unfold Buffer.isHighSurrogate in Hhigh.
           unfold Buffer.isLowSurrogate in Hlow.
           apply andb_true_iff in Hhigh as [H1 H2].
           apply andb_true_iff in Hlow as [H3 H4].
           apply N.leb_le in H1, H2, H3, H4. lia.
        -- apply Hstep; [unfold Buffer.REPLACEMENT; lia | simpl in Hlen |- *; lia |
                         by constructor].
    + destruct (Buffer.isLowSurrogate c) eqn:Hlow.
      * apply Hstep; [unfold Buffer.REPLACEMENT; lia | simpl in Hlen |- *; lia |
                      done].
      * apply Hstep; [|simpl in Hlen |- *; lia | done].
        unfold Buffer.isHighSurrogate in Hhigh.
        unfold Buffer.isLowSurrogate in Hlow.
        apply andb_false_iff in Hhigh. apply andb_false_iff in Hlow.
        rewrite !N.leb_gt in Hhigh, Hlow. lia.
Qed.

Lemma encodeCodePoint_bytes cp :
  cp < 0x110000 → Forall (λ x, x < 256) (Buffer.encodeCodePoint cp).
Proof.
  intros Hcp. unfold Buffer.encodeCodePoint.
  destruct (codepoint_digits cp)
    as (q3 & r3 & r2 & r1 & B3 & B2 & B1 & Hq & -> & -> & -> & -> & -> & ->).
  repeat match goal with
         | |- context [?a <? ?b] => destruct (N.ltb_spec a b)
         end; repeat constructor; lia.
Qed.

(** The UTF-8 form of a string of code units is a string of bytes. *)
Lemma fromUtf8_bytes s :
  Forall (λ c, c < 0x10000) s → Forall (λ x, x < 256) (Buffer.fromUtf8 s).
Proof.
  assert (∀ n s, (length s ≤ n)%nat → Forall (λ c, c < 0x10000) s →
            Forall (λ x, x < 256) (Buffer.fromUtf8 s)) as Hall;
    [|by eapply Hall].
  clear s. induction n as [|n IH]; intros s Hlen Hunits.
  - destruct s; [constructor | simpl in Hlen |- *; lia].
  - destruct s as [|c rest]; [constructor|].
    apply Forall_cons in Hunits as [Hc Hrest].
    cbn [Buffer.fromUtf8].
    destruct (Buffer.isHighSurrogate c) eqn:Hhigh.
    + destruct rest as [|d rest'].
      * apply encodeCodePoint_bytes. unfold Buffer.REPLACEMENT. lia.
      * apply Forall_cons in Hrest as [Hd Hrest'].
        destruct (Buffer.isLowSurrogate d) eqn:Hlow.
        -- apply Forall_app. split; [|apply IH; [simpl in Hlen |- *; lia | done]].
           apply encodeCodePoint_bytes.
           unfold Buffer.isHighSurrogate in Hhigh.
           unfold Buffer.isLowSurrogate in Hlow.
           apply andb_true_iff in Hhigh as [H1 H2].
           apply andb_true_iff in Hlow as [H3 H4].
           apply N.leb_le in H1, H2, H3, H4. lia.
        -- apply Forall_app. split;
             [|apply IH; [simpl in Hlen |- *; lia | by constructor]].
           apply encodeCodePoint_bytes. unfold Buffer.REPLACEMENT. lia.
    + destruct (Buffer.isLowSurrogate c);
        (apply Forall_app; split;
         [|apply IH; [simpl in Hlen |- *; lia | done]]);
        apply encodeCodePoint_bytes; unfold Buffer.REPLACEMENT; lia.
Qed.

End Utf8.

(* ================================================================== *)
(** * From the edit to the commit *)
(* ================================================================== *)

Section EditToCommit.

Implicit Types (scope : list jsstring) (scopeFiles : list ScopeFile)
  (candidates : list CandidateFile).

(** X20: a SafeReplace edit that the validator lets through keeps its
    text. For a content of UTF-16 code units, the CandidateFile carries
    the base64 SafeReplace wrote; its contents have the same UTF-8 bytes
    as the edited content, and are the edited content itself when that
    holds no surrogate. *)
Theorem validated_edit_keeps_text scope p c candidate :
  Forall (λ u, u < 0x10000) c →
  validateModelFile scope (editedFile p c) = Ok candidate →
  path candidate = Path.normalize (JS.stripDotSlash p)
  ∧ base64 candidate = Buffer.toBase64 (Buffer.fromUtf8 c)
  ∧ contents candidate = Buffer.toUtf8 (Buffer.fromUtf8 c)
  ∧ Buffer.fromUtf8 (contents candidate) = Buffer.fromUtf8 c
  ∧ (Forall (λ u, u < 0xD800 ∨ 0xE000 ≤ u < 0x10000) c →
     contents candidate = c).
Proof.
  intros Hunits Hvalid.
  apply validateModelFile_Ok in Hvalid
    as (file_path & Hpath & Hb64 & Hp & _ & _ & _ & Hcontents).
  injection Hpath as <-. injection Hb64 as Hb64.
  assert (contents candidate = Buffer.toUtf8 (Buffer.fromUtf8 c)) as Htext.
  { rewrite Hcontents, <- Hb64.
    by rewrite fromBase64_toBase64 by by apply fromUtf8_bytes. }
  split; [done|]. split; [done|]. split; [done|]. split.
  - rewrite Htext. by apply fromUtf8_toUtf8_fromUtf8.
  - intros Hplain. rewrite Htext. by apply toUtf8_fromUtf8.
Qed.

(** The version tokens are looked up by the fetched path itself; of two
    files with one path the later one counts. *)
Lemma shaLookupOf_spec scopeFiles p :
  (∀ sha, shaLookupOf scopeFiles !! p = Some sha →
          ∃ file, file ∈ scopeFiles ∧ sf_path file = p ∧ sf_sha file = sha)
  ∧ (p ∈ map sf_path scopeFiles → is_Some (shaLookupOf scopeFiles !! p)).
Proof.
  unfold shaLookupOf.
  induction scopeFiles as [|f files [IH1 IH2]] using rev_ind.
  - split; [done|]. simpl. intros Hin. by apply elem_of_nil in Hin.
  - rewrite foldl_app. simpl.
    destruct (decide (sf_path f = p)) as [<- | Hne].
    + rewrite lookup_insert_eq. split; [|eauto].
      intros sha [= <-]. exists f. split; [|done].
      apply elem_of_app. right. by apply list_elem_of_singleton.
    + rewrite lookup_insert_ne by done. split.
      * intros sha Hsha. destruct (IH1 sha Hsha) as (file & Hin & Hfile).
        exists file. split; [|done]. apply elem_of_app. by left.
      * rewrite map_app. intros Hin.
        apply elem_of_app in Hin as [Hin | Hin]; [by apply IH2|].
        simpl in Hin. by apply list_elem_of_singleton in Hin.
Qed.

Lemma Forall2_map_self {A B : Type} (P : A → B → Prop) (f : A → B)
    (l : list A) :
  Forall (λ x, P x (f x)) l → Forall2 P l (map f l).
Proof. induction 1; simpl; by constructor. Qed.

(** X21: the requests of a commit. There is one request per file, in
    order, for the file's path; all carry the one message that lists
    every path; what the content sent decodes to is the UTF-8 form of
    the file's contents; and a version token goes along exactly when the
    path is, as written, the path of a fetched file, in which case it is
    the token of such a file. *)
Theorem commitFiles_requests candidates scopeFiles :
  Forall (λ file, Forall (λ u, u < 0x10000) (contents file)) candidates →
  Forall2 (λ file request,
             cr_path request = path file
             ∧ cr_message request
               = js "shipyard: "
                 ++ JS.join (js ", ") (map path candidates)
             ∧ Buffer.fromBase64 (cr_content request)
               = Buffer.fromUtf8 (contents file)
             ∧ (is_Some (cr_sha request)
                ↔ path file ∈ map sf_path scopeFiles)
             ∧ (∀ sha, cr_sha request = Some sha →
                       ∃ scopeFile, scopeFile ∈ scopeFiles
                                    ∧ sf_path scopeFile = path file
                                    ∧ sf_sha scopeFile = sha))
    candidates (commitFiles candidates scopeFiles).
Proof.
  intros Hunits. unfold commitFiles. apply Forall2_map_self.
  eapply Forall_impl; [exact Hunits|]. intros file Hfile. simpl.
  destruct (shaLookupOf_spec scopeFiles (path file)) as [Hsome Hin].
  split; [done|]. split; [done|].
  split; [by apply fromBase64_toBase64, fromUtf8_bytes|].
  split; [|done]. split; [|done].
  intros [sha Hsha]. destruct (Hsome sha Hsha) as (scopeFile & Hmem & <- & _).
  apply list_elem_of_fmap. by exists scopeFile.
Qed.

(** X22: after a fetch that returned, a commit request carries a version
    token exactly when the file's path is one of the scope entries as
    written; an edit of any other path within the scope is sent without
    one. *)
Theorem commit_token_for_scope_entries
    (getContent : jsstring → contentResponse)
    scope scopeFiles candidates :
  fetchScopeFiles getContent scope = inr scopeFiles →
  Forall2 (λ file request,
             is_Some (cr_sha request) ↔ path file ∈ scope)
    candidates (commitFiles candidates scopeFiles).
Proof.
  intros Hfetch. apply fetchScopeFiles_paths in Hfetch as (Hpaths & _).
  unfold commitFiles. apply Forall2_map_self. apply Forall_forall.
  intros file _. simpl. rewrite <- Hpaths.
  destruct (shaLookupOf_spec scopeFiles (path file)) as [Hsome Hin].
  split; [|done].
  intros [sha Hsha]. destruct (Hsome sha Hsha) as (scopeFile & Hmem & <- & _).
  apply list_elem_of_fmap. by exists scopeFile.
Qed.

End EditToCommit.

(* ================================================================== *)
(** * Normalized paths *)
(* ================================================================== *)

Section PathFacts.

Implicit Types (s cur seg p : jsstring) (segs stack : list jsstring).

(** Splitting on the separator, one unit at a time. *)
Lemma split_go_slash cur c s :
  JS.split_go Path.slash 0 cur (c :: s) =
    if c =? 47 then reverse cur :: JS.split_go Path.slash 0 [] s
    else JS.split_go Path.slash 0 (c :: cur) s.
Proof.
  rewrite split_go_unfold. change Path.slash with [47].
  cbn [JS.startsWith]. rewrite startsWith_nil, andb_true_r, N.eqb_sym.
  reflexivity.
Qed.

Lemma split_slash s : JS.split s Path.slash = JS.split_go Path.slash 0 [] s.
Proof. reflexivity. Qed.

(** A string without separator is one segment. *)
Lemma split_go_segment cur seg :
  Forall (λ c, c ≠ 47) seg →
  JS.split_go Path.slash 0 cur seg = [reverse cur ++ seg].
Proof.
  intros Hseg. revert cur. induction Hseg as [|c seg Hc _ IH]; intros cur.
  - simpl. by rewrite app_nil_r.
  - rewrite split_go_slash, (proj2 (N.eqb_neq c 47)) by done.
    rewrite IH, reverse_cons, <- app_assoc. done.
Qed.

(** A segment, a separator, and what follows. *)
Lemma split_go_segment_slash cur seg rest :
  Forall (λ c, c ≠ 47) seg →
  JS.split_go Path.slash 0 cur (seg ++ Path.slash ++ rest)
  = (reverse cur ++ seg) :: JS.split_go Path.slash 0 [] rest.
Proof.
  intros Hseg. revert cur. induction Hseg as [|c seg Hc _ IH]; intros cur.
  - change ([] ++ Path.slash ++ rest) with (47 :: rest).
    rewrite split_go_slash. simpl. by rewrite app_nil_r.
  - change ((c :: seg) ++ Path.slash ++ rest)
      with (c :: seg ++ Path.slash ++ rest).
    rewrite split_go_slash, (proj2 (N.eqb_neq c 47)) by done.
    rewrite IH, reverse_cons, <- app_assoc. done.
Qed.

(** A trailing separator closes the last segment and opens an empty
    one. *)
Lemma split_go_trailing cur s :
  JS.split_go Path.slash 0 cur (s ++ Path.slash)
  = JS.split_go Path.slash 0 cur s ++ [[]].
Proof.
  revert cur. induction s as [|c s IH]; intros cur.
  - change ([] ++ Path.slash) with [47]. rewrite split_go_slash. done.
  - change ((c :: s) ++ Path.slash) with (c :: s ++ Path.slash).
    rewrite !split_go_slash. destruct (c =? 47); rewrite IH; done.
Qed.

(** The segments of a split hold no separator. *)
Lemma split_go_no_slash cur s :
  Forall (λ c, c ≠ 47) cur →
  Forall (Forall (λ c, c ≠ 47)) (JS.split_go Path.slash 0 cur s).
Proof.
  revert cur. induction s as [|c s IH]; intros cur Hcur.
  - simpl. constructor; [|constructor]. by apply Forall_reverse.
  - rewrite split_go_slash. destruct (N.eqb_spec c 47) as [-> | Hc].
    + constructor; [by apply Forall_reverse | by apply IH].
    + apply IH. by constructor.
Qed.

(** Joining segments that hold no separator, and splitting again. *)
Lemma split_join segs :
  segs ≠ [] → Forall (Forall (λ c, c ≠ 47)) segs →
  JS.split (JS.join Path.slash segs) Path.slash = segs.
Proof.
  intros Hne Hsegs. rewrite split_slash.
  induction Hsegs as [|seg segs Hseg Hrest IH]; [done|].
  destruct segs as [|seg' segs].
  - simpl. by rewrite split_go_segment.
  - rewrite join_cons by done.
    rewrite split_go_segment_slash by done. simpl reverse.
    rewrite IH by done. done.
Qed.


(** A kept segment: not empty, not [.], not [..], without separator. *)
Local Abbreviation kept := (λ seg : jsstring,
  seg ≠ [] ∧ seg ≠ Path.dot ∧ seg ≠ Path.dotdot ∧ Forall (λ c, c ≠ 47) seg).

(** The stack of [normalizeString] holds kept segments above leading
    [..] segments, and the latter only for a relative path. *)
Lemma step_stack allowAboveRoot stack seg :
  Forall (λ c, c ≠ 47) seg →
  (∃ names dds, stack = names ++ dds ∧ Forall kept names
                ∧ Forall (λ d, d = Path.dotdot) dds
                ∧ (allowAboveRoot = false → dds = [])) →
  ∃ names dds, Path.step allowAboveRoot stack seg = names ++ dds
               ∧ Forall kept names
               ∧ Forall (λ d, d = Path.dotdot) dds
               ∧ (allowAboveRoot = false → dds = []).
Proof.
  intros Hseg (names & dds & -> & Hnames & Hdds & Hroot). unfold Path.step.
  destruct (JS.streq seg []) eqn:Hempty; [by exists names, dds|].
  destruct (JS.streq seg Path.dot) eqn:Hdot; [by exists names, dds|].
  apply streq_false in Hempty, Hdot. simpl.
  destruct (JS.streq seg Path.dotdot) eqn:Hdd.
  - destruct names as [|top names]; simpl.
    + destruct dds as [|d dds].
      * destruct allowAboveRoot; [|by exists [], []].
        exists [], [Path.dotdot]. repeat split; try done. by constructor.
      * apply Forall_cons in Hdds as [-> Hdds].
        rewrite (proj2 (streq_true Path.dotdot Path.dotdot)) by done.
        destruct allowAboveRoot; [|by specialize (Hroot eq_refl)].
        exists [], (Path.dotdot :: Path.dotdot :: dds).
        repeat split; try done. by repeat constructor.
    + apply Forall_cons in Hnames as [(_ & _ & Htop & _) Hnames].
      rewrite (proj2 (streq_false top Path.dotdot)) by done.
      by exists names, dds.
  - apply streq_false in Hdd. exists (seg :: names), dds.
    repeat split; try done. by constructor.
Qed.

Lemma normalizeString_stack allowAboveRoot (segs : list jsstring) stack :
  Forall (Forall (λ c, c ≠ 47)) segs →
  (∃ names dds, stack = names ++ dds ∧ Forall kept names
                ∧ Forall (λ d, d = Path.dotdot) dds
                ∧ (allowAboveRoot = false → dds = [])) →
  ∃ names dds, foldl (Path.step allowAboveRoot) stack segs = names ++ dds
               ∧ Forall kept names
               ∧ Forall (λ d, d = Path.dotdot) dds
               ∧ (allowAboveRoot = false → dds = []).
Proof.
  intros Hsegs. revert stack.
  induction Hsegs as [|seg segs Hseg _ IH]; intros stack Hstack; [done|].
  simpl. apply IH. by apply step_stack.
Qed.

(** The shape of a normalized path: [.], [./], [/], or segments joined
    by separators, any [..] leading and only in a relative path, after an
    optional root and before an optional trailing separator. *)
Lemma normalize_shape p :
  Path.normalize p = Path.dot
  ∨ Path.normalize p = js "./"
  ∨ Path.normalize p = Path.slash
  ∨ ∃ (absolute trailing : bool) dds names,
      dds ++ names ≠ []
      ∧ Forall (λ d, d = Path.dotdot) dds
      ∧ Forall kept names
      ∧ (absolute = true → dds = [])
      ∧ Path.normalize p
        = (if absolute then Path.slash else [])
          ++ JS.join Path.slash (dds ++ names)
          ++ (if trailing then Path.slash else []).
Proof.
  unfold Path.normalize. destruct p as [|c p]; [by left|].
  set (absolute := JS.startsWith (c :: p) Path.slash).
  set (trailing := JS.endsWith (c :: p) Path.slash).
  unfold Path.normalizeString.
  destruct (normalizeString_stack (negb absolute)
              (JS.split (c :: p) Path.slash) [])
    as (names & dds & Hstack & Hnames & Hdds & Hroot).
  { apply split_go_no_slash. constructor. }
  { exists [], []. repeat split; done. }
  rewrite Hstack, reverse_app.
  destruct (JS.join Path.slash (reverse dds ++ reverse names)) eqn:Hjoin.
  - destruct absolute; [by right; right; left|].
    destruct trailing; [by right; left | by left].
  - right; right; right.
    exists absolute, trailing, (reverse dds), (reverse names).
    split; [intros Hnil; by rewrite Hnil in Hjoin|].
    split; [by apply Forall_reverse|]. split; [by apply Forall_reverse|].
    split; [|by rewrite Hjoin].
    intros Habs. rewrite Hroot; [done|]. by rewrite Habs.
Qed.

(** A normalized path that neither is [..] nor begins with [../] has no
    [..] segment. *)
Lemma normalize_no_traversal p :
  JS.startsWith (Path.normalize p) (js "../") = false →
  Path.normalize p ≠ Path.dotdot →
  Path.dotdot ∉ JS.split (Path.normalize p) Path.slash.
Proof.
  intros Hprefix Hbare.
  destruct (normalize_shape p)
    as [Hn | [Hn | [Hn | (absolute & trailing & dds & names & Hne & Hdds
                          & Hnames & Hroot & Hn)]]];
    rewrite Hn in *; clear Hn.
  1-3: vm_compute; intros Hin; apply list_elem_of_In in Hin; simpl in Hin;
       intuition discriminate.
  destruct dds as [|d dds].
  - (* no [..] among the segments *)
    cbn [app] in *. intros Hin.
    assert (Path.dotdot ∉ names) as Hnot.
    { intros Hmem. rewrite Forall_forall in Hnames.
      by destruct (Hnames _ Hmem) as (_ & _ & Hdd & _). }
    assert (Forall (Forall (λ c, c ≠ 47)) names) as Hfree.
    { eapply Forall_impl; [exact Hnames|]. by intros seg (_ & _ & _ & H). }
    assert (∀ l : list jsstring, Path.dotdot ∈ l ++ [[]] → Path.dotdot ∈ l)
      as Hlast.
    { intros l Hl. apply elem_of_app in Hl as [Hl | Hl]; [done|].
      by apply list_elem_of_singleton in Hl. }
    assert (JS.split (JS.join Path.slash names) Path.slash = names)
      as Hsplit by by apply split_join.
    rewrite split_slash in Hin, Hsplit.
    destruct absolute, trailing.
    + change (Path.slash ++ JS.join Path.slash names ++ Path.slash)
        with (47 :: JS.join Path.slash names ++ Path.slash) in Hin.
      rewrite split_go_slash in Hin. cbn [N.eqb Pos.eqb] in Hin.
      apply elem_of_cons in Hin as [Hin | Hin]; [done|].
      rewrite split_go_trailing, Hsplit in Hin. by apply Hlast in Hin.
    + rewrite app_nil_r in Hin.
      change (Path.slash ++ JS.join Path.slash names)
        with (47 :: JS.join Path.slash names) in Hin.
      rewrite split_go_slash in Hin. cbn [N.eqb Pos.eqb] in Hin.
      apply elem_of_cons in Hin as [Hin | Hin]; [done|].
      by rewrite Hsplit in Hin.
    + cbn [app] in Hin.
      rewrite split_go_trailing, Hsplit in Hin. by apply Hlast in Hin.
    + cbn [app] in Hin. rewrite app_nil_r in Hin. by rewrite Hsplit in Hin.
  - (* a leading [..]: the path is [..] or begins with [../] *)
    exfalso. apply Forall_cons in Hdds as [-> Hdds].
    destruct absolute; [by specialize (Hroot eq_refl)|].
    cbn [app] in Hprefix, Hbare.
    destruct (dds ++ names) as [|seg segs] eqn:Hrest.
    + destruct trailing; [vm_compute in Hprefix; done|].
      vm_compute in Hbare. done.
    + change (JS.join Path.slash (Path.dotdot :: seg :: segs))
        with (js "../" ++ JS.join Path.slash (seg :: segs)) in Hprefix.
      rewrite <- app_assoc, startsWith_app in Hprefix. done.
Qed.

(** A normalized path that begins with [./] is [./]. *)
Lemma normalize_dot_slash p :
  JS.startsWith (Path.normalize p) (js "./") = true →
  Path.normalize p = js "./".
Proof.
  intros Hprefix.
  destruct (normalize_shape p)
    as [Hn | [Hn | [Hn | (absolute & trailing & dds & names & Hne & Hdds
                          & Hnames & Hroot & Hn)]]];
    rewrite Hn in *; clear Hn; try done.
  exfalso. destruct absolute; [done|]. cbn [app] in Hprefix.
  assert (∃ seg segs, dds ++ names = seg :: segs
                      ∧ seg ≠ [] ∧ seg ≠ Path.dot
                      ∧ Forall (λ c, c ≠ 47) seg)
    as (seg & segs & Hsegs & Hseg & Hdot & Hfree).
  { destruct dds as [|d dds].
    - destruct names as [|seg names]; [done|].
      apply Forall_cons in Hnames as [(? & ? & _ & ?) _].
      by exists seg, names.
    - apply Forall_cons in Hdds as [-> _].
      exists Path.dotdot, (dds ++ names). split; [done|].
      split; [done|]. split; [done|]. by repeat constructor. }
  rewrite Hsegs in Hprefix.
  apply startsWith_prefix in Hprefix as [rest Hrest].
  assert (∃ tail, JS.join Path.slash (seg :: segs)
                  ++ (if trailing then Path.slash else [])
                  = seg ++ tail ∧ (tail = [] ∨ ∃ t, tail = 47 :: t))
    as (tail & Htail & Hshape).
  { destruct segs as [|seg' segs].
    - exists (if trailing then Path.slash else []). split; [done|].
      destruct trailing; [right; by exists [] | by left].
    - rewrite join_cons by done. rewrite <- !app_assoc.
      eexists. split; [done|]. right. eexists. done. }
  rewrite Htail in Hrest.
  destruct seg as [|c [|c' seg]]; [done| |].
  - injection Hrest as -> _. done.
  - injection Hrest as _ -> _.
    apply Forall_cons in Hfree as [_ Hfree].
    by apply Forall_cons in Hfree as [? _].
Qed.

End PathFacts.

(* ================================================================== *)
(** * Parent segments in scopes and edits *)
(* ================================================================== *)

Section Traversal.

Implicit Types (scope : list jsstring).

(** The bare parent path is within a scope only as an entry of it. *)
Lemma isWithinScope_dotdot scope :
  isWithinScope scope Path.dotdot = true → Path.dotdot ∈ scope.
Proof.
  unfold isWithinScope. rewrite normalizedScope_id, existsb_exists.
  intros (e & Hin & Hcontained). apply list_elem_of_In in Hin.
  apply containedBy_spec in Hcontained
    as [<- | [[Hdir (rest & Hrest & Heq)] | [_ (rest & Heq)]]]; [done|..];
    exfalso.
  - apply endsWith_suffix in Hdir as [front ->].
    destruct front as [|a [|b [|c front]]]; discriminate Heq.
  - destruct e as [|a [|b [|c e]]]; discriminate Heq.
Qed.

(** X23: the paths the validator returns hold no [..] segment, the bare
    path [..] apart; and that one is returned only for a scope that
    lists [..] as an entry. *)
Theorem validateModelFiles_no_traversal modelFiles scope candidates :
  validateModelFiles modelFiles scope = Ok candidates →
  Forall (λ candidate,
            (path candidate = Path.dotdot ∧ Path.dotdot ∈ scope)
            ∨ Path.dotdot ∉ JS.split (path candidate) Path.slash)
    candidates.
Proof.
  intros Hvalid.
  apply validateModelFiles_entries in Hvalid as (files & _ & _ & Hall).
  induction Hall as [|file candidate files candidates Hfile _ IH];
    [constructor|].
  constructor; [|done].
  apply validateModelFile_Ok in Hfile
    as (file_path & _ & _ & Hpath & Hescape & Hscope & _).
  destruct (decide (path candidate = Path.dotdot)) as [Hbare | Hbare].
  - left. split; [done|]. apply isWithinScope_dotdot. by rewrite <- Hbare.
  - right. rewrite Hpath in *. by apply normalize_no_traversal.
Qed.

(** One scope entry out of the parser: [..], the directory entry [../],
    or a path without [..] segment. *)
Lemma normalizeScopeEntry_no_traversal entry scopePath :
  normalizeScopeEntry entry = Ok scopePath →
  scopePath = js ".." ∨ scopePath = js "../"
  ∨ Path.dotdot ∉ JS.split scopePath Path.slash.
Proof.
  unfold normalizeScopeEntry.
  destruct entry as [| | | |e| |]; try done.
  destruct (JS.streq (JS.trim e) []); [done|].
  set (normalized := Path.normalize _).
  destruct (JS.startsWith normalized (js "../")) eqn:Hescape; [done|].
  assert (JS.stripDotSlash normalized = []
          ∨ JS.stripDotSlash normalized = normalized) as [Hstrip | Hstrip].
  { unfold JS.stripDotSlash.
    destruct (JS.startsWith normalized (js "./")) eqn:Hdot; [|by right].
    left. subst normalized. by rewrite (normalize_dot_slash _ Hdot). }
  - rewrite Hstrip. intros [= <-]. right; right.
    destruct (JS.endsWith (JS.trim e) Path.slash); vm_compute;
      intros Hin; apply list_elem_of_In in Hin; simpl in Hin;
      intuition discriminate.
  - rewrite Hstrip. intros [= <-].
    destruct (decide (normalized = Path.dotdot)) as [-> | Hbare].
    { destruct (JS.endsWith (JS.trim e) Path.slash);
        [right; by left | by left]. }
    right; right.
    pose proof (normalize_no_traversal _ Hescape Hbare) as Hfree.
    fold normalized in Hfree.
    destruct (JS.endsWith (JS.trim e) Path.slash); [|done].
    rewrite split_slash, split_go_trailing, <- split_slash.
    intros Hin. apply elem_of_app in Hin as [Hin | Hin]; [done|].
    by apply list_elem_of_singleton in Hin.
Qed.

(** X24: of the scope entries with a [..] segment, the parser lets
    through [..] and [../] and no other: every entry of a parsed scope
    is one of these two or has no [..] segment. *)
Theorem parseTicket_scope_traversal ticket doc :
  parseTicket ticket = Ok doc →
  Forall (λ scopePath,
            scopePath = js ".." ∨ scopePath = js "../"
            ∨ Path.dotdot ∉ JS.split scopePath Path.slash)
    (scope doc).
Proof.
  intros Hparse.
  apply parseTicket_scope_entries in Hparse as (entries & _ & Hall).
  induction Hall as [|entry scopePath entries scopePaths Hentry _ IH];
    [constructor|].
  constructor; [by eapply normalizeScopeEntry_no_traversal | done].
Qed.

End Traversal.

(* ================================================================== *)
(** * The check of SafeReplace that a run never meets *)
(* ================================================================== *)

Section DeadCheck.

(** A loop throws only what its body throws. *)
Lemma traverse_never {A B : Type} (f : A → result B) e :
  (∀ x, f x ≠ Err e) → ∀ l, traverse f l ≠ Err e.
Proof.
  intros Hbody l Herr. apply traverse_Err_inv in Herr as (x & _ & Hx).
  by apply (Hbody x).
Qed.

Lemma foldM_never {S A : Type} (f : S → A → result S) e :
  (∀ s x, f s x ≠ Err e) → ∀ s l, foldM f s l ≠ Err e.
Proof.
  intros Hbody s l. revert s. induction l as [|x l IH]; intros s; simpl;
    [done|].
  destruct (f s x) as [s'|e'] eqn:Hx; step_bind; [apply IH|].
  intros [= ->]. by apply (Hbody s x).
Qed.

Ltac branches :=
  unfold throwIf;
  repeat match goal with
         | |- context [if ?b then _ else _] => destruct b
         end; step_bind; try done.

Lemma buildColorPresetReplacements_never preset :
  buildColorPresetReplacements preset ≠ Err NoReplacementsError.
Proof.
  unfold buildColorPresetReplacements.
  destruct (negb (Value.truthy preset) || negb (Value.isObject preset));
    [done|].
  unfold throwIf. destruct (JS.streq _ []); step_bind; [done|].
  destruct (negb (JS.member _ COLOR_PRESET_COLORS)); step_bind; [done|].
  destruct (traverse _ _) as [perKind|e] eqn:Hkinds; step_bind; [done|].
  intros [= ->]. revert Hkinds. apply traverse_never. intros rawKind.
  unfold presetKind, throwIf.
  destruct (negb (JS.member _ COLOR_PRESET_KIND_SET)); step_bind; [done|].
  apply traverse_never. intros rawShade. unfold presetRule. branches.
Qed.

Lemma applyColorPresets_never replacements :
  applyColorPresets replacements ≠ Err NoReplacementsError.
Proof.
  apply traverse_never. intros entry. unfold applyColorPreset.
  destruct (negb (Value.truthy entry) || negb (Value.isObject entry));
    [done|].
  destruct (nonEmptyArray _); [done|].
  destruct (negb (Value.truthy _)); [done|].
  destruct (buildColorPresetReplacements _) as [[|g gs]|e] eqn:Hbuild;
    step_bind; [done| by destruct entry |].
  intros [= ->]. by apply buildColorPresetReplacements_never in Hbuild.
Qed.

Lemma applyReplacement_never st replacement :
  applyReplacement st replacement ≠ Err NoReplacementsError.
Proof.
  unfold applyReplacement, throwIf.
  destruct (negb (Value.truthy replacement) || _); step_bind; [done|].
  destruct (Value.get replacement "replace"); try done.
  destruct (Value.get replacement "find");
    destruct (Value.get replacement "find_any"); try done;
    try (by destruct (bool_decide (length _ = 1%nat)));
    (destruct (bool_decide (tokenList _ = [])); step_bind; [done|];
     destruct (chooseToken _ _) as [[chosenToken ?]|]; [|done];
     by destruct (JS.streq chosenToken [])).
Qed.

Lemma editedFiles_never scope scopeMap entries :
  editedFiles scope scopeMap entries ≠ Err NoReplacementsError.
Proof.
  apply foldM_never. intros files entry.
  destruct (applyDirective scope scopeMap entry) as [pushed|e] eqn:Hentry;
    step_bind; [done|].
  intros [= ->]. revert Hentry. unfold applyDirective.
  destruct (Value.truthy entry); [|by destruct (Value.get entry "path")].
  destruct (Value.get entry "path"); try done.
  unfold throwIf.
  destruct (JS.startsWith _ (js "../")); step_bind; [done|].
  destruct (negb (isWithinScope _ _)); step_bind; [done|].
  destruct (scopeMap !! _); [|done].
  destruct (Value.get entry "replacements") as [| | | | |[|r rs]|];
    try done.
  destruct (foldM _ _ _) as [st|e] eqn:Hrules; step_bind; [done|].
  intros [= ->]. revert Hrules. apply foldM_never.
  apply applyReplacement_never.
Qed.

Lemma validateModelFiles_never modelFiles scope :
  validateModelFiles modelFiles scope ≠ Err NoReplacementsError.
Proof.
  unfold validateModelFiles.
  destruct modelFiles as [| | | | |[|f fs]|]; try done.
  unfold throwIf. destruct (bool_decide _); step_bind; [done|].
  apply traverse_never. intros file. unfold validateModelFile.
  destruct (Value.truthy file); [|done].
  destruct (Value.get file "path"); try done.
  destruct (Value.get file "contents_base64"); try done.
  branches.
Qed.

(** X25: the first check of SafeReplace never fires in a run. The run
    calls SafeReplace only for a non-empty [safe_replace] list, and no
    step after that check throws its error; so a run ends with it only
    if the generative source itself throws it. *)
Theorem run_never_asks_for_replacements
    callLLM verifyStrict ticket scopeFiles :
  (∀ t s, callLLM t s ≠ Err NoReplacementsError) →
  run callLLM verifyStrict ticket scopeFiles ≠ Aborted NoReplacementsError.
Proof.
  intros Hmodel. unfold run.
  assert (∀ files, (if verifyStrict
                    then match runSanityRails files with
                         | Ok _ => HandedToCommit files
                         | Err e => Aborted e
                         end
                    else HandedToCommit files)
                   ≠ Aborted NoReplacementsError) as Hrails.
  { intros files. destruct verifyStrict; [|done].
    by destruct (runSanityRails_error files) as [-> | ->]. }
  destruct (nonEmptyArray (safe_replace ticket)) eqn:Hsafe.
  - destruct (safeReplace ticket scopeFiles) as [[|f fs]|e] eqn:Hrun;
      step_bind; [done | apply Hrails |].
    intros [= ->]. revert Hrun. unfold safeReplace.
    destruct (safe_replace ticket) as [| | | | |[|r rs]|]; try done.
    destruct (applyColorPresets (r :: rs)) as [expanded|e] eqn:Hpresets;
      step_bind; [|intros [= ->]; by apply applyColorPresets_never in Hpresets].
    destruct (editedFiles _ _ _) as [[|f fs]|e] eqn:Hedits; step_bind;
      [done | apply validateModelFiles_never |].
    intros [= ->]. by apply editedFiles_never in Hedits.
  - destruct (callLLM ticket scopeFiles) as [files|e] eqn:Hllm; step_bind;
      [apply Hrails|].
    intros [= ->]. by apply Hmodel in Hllm.
Qed.

End DeadCheck.

(* ================================================================== *)
(** * The further facts on sample inputs *)
(* ================================================================== *)

Section FurtherWitnesses.

Import Sample.

(** Every code unit of a literal is below [0x10000]. *)
Ltac units := repeat (constructor; [reflexivity|]); constructor.

(** [blue] replaced by [blue]. *)
Lemma self_replacement_changes_nothing_witness :
  let st := initialEdit (js "text-blue-500") in
  ∃ st', foldM applyReplacement st [findRule "blue" "blue"] = Ok st'
         ∧ content st' = content st
         ∧ pushIfChanged (js "f.ts") (content st) st' = None.
Proof.
  intros st.
  apply (self_replacement_changes_nothing st [findRule "blue" "blue"]
           (js "f.ts")).
  constructor; [|constructor]. exists (js "blue"). split; reflexivity.
Defined.

(** [pink] occurs twice, first at offset 5. *)
Lemma find_present_token_is_replaced_witness :
  let st := initialEdit (js "text-pink-500 bg-pink-500") in
  applyReplacement st (findRule "pink" "purple") =
    Ok {| content := JS.join (js "purple") (JS.split (content st) (js "pink"));
          modified := true;
          replacementCount :=
            (replacementCount st
             + (Z.of_nat (length (JS.split (content st) (js "pink"))) - 1))%Z |}
  ∧ (1 ≤ Z.of_nat (length (JS.split (content st) (js "pink"))) - 1)%Z.
Proof.
  intros st.
  apply (find_present_token_is_replaced st (findRule "pink" "purple")
           (js "pink") (js "purple") 5%nat).
  - reflexivity.
  - reflexivity.
  - discriminate.
  - vm_compute. reflexivity.
Defined.


(** One rule, one occurrence: the count is 1 and the file is pushed. *)
Lemma rules_keep_the_books_witness :
  let original := js "text-pink-500" in
  let st := {| content := js "text-purple-500";
               modified := true;
               replacementCount := 1 |} in
  (0 ≤ replacementCount st)%Z
  ∧ (modified st = true ↔ (0 < replacementCount st)%Z)
  ∧ (content st ≠ original → modified st = true)
  ∧ pushIfChanged (js "f.ts") original st
    = if JS.streq (content st) original then None
      else Some (editedFile (js "f.ts") (content st)).
Proof.
  intros original st.
  apply (rules_keep_the_books original [findRule "pink" "purple"] st
           (js "f.ts")).
  vm_compute. reflexivity.
Defined.

(** The one directive of the sample ticket edits [f.ts]. *)
Lemma editedFiles_in_scope_and_changed_witness :
  let scope := [js "f.ts"] in
  let scopeMap := scopeMapOf [scopeFile "f.ts" "text-pink-500"] in
  let entries := [directive "f.ts" [findRule "pink" "purple"]] in
  let files := [editedFile (js "f.ts") (js "text-purple-500")] in
  (length files ≤ length entries)%nat
  ∧ Forall (λ f, ∃ p c scopeFile,
                   f = editedFile p c
                   ∧ JS.startsWith p (js "../") = false
                   ∧ isWithinScope scope p = true
                   ∧ scopeMap !! p = Some scopeFile
                   ∧ c ≠ sf_content scopeFile) files.
Proof.
  intros scope scopeMap entries files.
  apply (editedFiles_in_scope_and_changed scope scopeMap entries files).
  vm_compute. reflexivity.
Defined.

(** A directive with a purple preset and one with a rule of its own. *)
Lemma applyColorPresets_keeps_directives_witness :
  let withPreset :=
    [(js "path", str "f.ts");
     (js "color_preset", preset (js "purple") [js "text"] [js "500"])] in
  let withRules := directive "g.ts" [findRule "pink" "purple"] in
  let generated :=
    [findAnyRule
       (map js ["text-red-500"; "text-orange-500"; "text-pink-500";
                "text-purple-500"; "text-green-500"]%string)
       (js "text-purple-500")] in
  Forall2 (λ entry entry',
             (∀ key, js key ≠ js "replacements" →
                     Value.get entry' key = Value.get entry key)
             ∧ (nonEmptyArray (Value.get entry "replacements") = true →
                entry' = entry)
             ∧ (Value.get entry' "replacements"
                ≠ Value.get entry "replacements" →
                ∃ generated,
                  generated ≠ []
                  ∧ buildColorPresetReplacements
                      (Value.get entry "color_preset") = Ok generated
                  ∧ Value.get entry' "replacements" = VArray generated))
    [VObject withPreset; withRules]
    [VObject (withPreset ++ [(js "replacements", VArray generated)]);
     withRules].
Proof.
  intros withPreset withRules generated.
  apply (applyColorPresets_keeps_directives
           [VObject withPreset; withRules]
           [VObject (withPreset ++ [(js "replacements", VArray generated)]);
            withRules]).
  vm_compute. reflexivity.
Defined.

(** [aGVsbG8h] is [hello!]. *)
Lemma validateModelFiles_Ok_witness :
  let candidate := {| path := js "f.ts";
                      contents := js "hello!";
                      base64 := js "aGVsbG8h" |} in
  ∃ files,
    VArray [modelFile "./f.ts" "aGVsbG8h"] = VArray files
    ∧ (1 ≤ length [candidate] ≤ MAX_FILES)%nat
    ∧ Forall2 (λ file candidate,
                 ∃ file_path,
                   Value.get file "path" = VString file_path
                   ∧ Value.get file "contents_base64"
                     = VString (base64 candidate)
                   ∧ path candidate
                     = Path.normalize (JS.stripDotSlash file_path)
                   ∧ JS.startsWith (path candidate) (js "../") = false
                   ∧ isWithinScope [js "f.ts"] (path candidate) = true
                   ∧ 0 < Buffer.size (Buffer.fromBase64 (base64 candidate))
                     ≤ MAX_FILE_SIZE
                   ∧ contents candidate
                     = Buffer.toUtf8 (Buffer.fromBase64 (base64 candidate)))
        files [candidate].
Proof.
  intros candidate.
  apply (validateModelFiles_Ok (VArray [modelFile "./f.ts" "aGVsbG8h"])
           [js "f.ts"] [candidate]).
  vm_compute. reflexivity.
Defined.

(** The second entry leaves the repository. *)
Lemma validateModelFiles_all_or_nothing_witness :
  ∃ e, validateModelFiles
         (VArray [modelFile "f.ts" "aGVsbG8h"; modelFile "../g.ts" "aGVsbG8h"])
         [js "f.ts"] = Err e.
Proof.
  apply (validateModelFiles_all_or_nothing
           [modelFile "f.ts" "aGVsbG8h"; modelFile "../g.ts" "aGVsbG8h"]
           [js "f.ts"] (modelFile "../g.ts" "aGVsbG8h")
           (PathEscapeError (js "../g.ts"))).
  - apply list_elem_of_In. simpl. auto.
  - vm_compute. reflexivity.
Defined.

(** A source that fails and one that returns a file, under SafeReplace. *)
Lemma run_safe_replace_ignores_model_witness :
  let ticket := ticket [directive "f.ts" [findRule "pink" "purple"]] in
  let scopeFiles := [scopeFile "f.ts" "text-pink-500"] in
  run (λ _ _, Err NoFilesError) true ticket scopeFiles
  = run (λ _ _, Ok [{| path := js "f.ts";
                       contents := js "hello!";
                       base64 := js "aGVsbG8h" |}])
      true ticket scopeFiles.
Proof.
  intros ticket scopeFiles.
  apply (run_safe_replace_ignores_model
           (λ _ _, Err NoFilesError)
           (λ _ _, Ok [{| path := js "f.ts";
                          contents := js "hello!";
                          base64 := js "aGVsbG8h" |}])
           true ticket scopeFiles).
  reflexivity.
Defined.

(** A ticket without [safe_replace] rules and a source whose answer goes
    through the validator. *)
Lemma run_hands_over_validated_files_witness :
  let callLLM := λ (t : TicketDocument) (_ : list ScopeFile),
    validateModelFiles (VArray [modelFile "f.ts" "aGVsbG8h"]) (scope t) in
  let ticket := ticket [] in
  let candidates := [{| path := js "f.ts";
                        contents := js "hello!";
                        base64 := js "aGVsbG8h" |}] in
  (1 ≤ length candidates ≤ MAX_FILES)%nat
  ∧ Forall (λ candidate,
              JS.startsWith (path candidate) (js "../") = false
              ∧ isWithinScope (scope ticket) (path candidate) = true
              ∧ 0 < Buffer.size (Buffer.fromBase64 (base64 candidate))
                ≤ MAX_FILE_SIZE
              ∧ contents candidate
                = Buffer.toUtf8 (Buffer.fromBase64 (base64 candidate)))
      candidates
  ∧ (true = true → runSanityRails candidates = Ok ()).
Proof.
  intros callLLM ticket candidates.
  apply (run_hands_over_validated_files callLLM true ticket
           [scopeFile "f.ts" "text"] candidates).
  - intros t s files Hfiles. eexists. exact Hfiles.
  - vm_compute. reflexivity.
Defined.

(** A ticket with a title and nothing else: [why] is the first field
    missing. *)
Lemma parseTicket_first_missing_field_witness :
  parseTicket (obj [("title", str "Change header brand color")]%string)
  = Err (TicketFieldError (js "why")).
Proof.
  apply (parseTicket_first_missing_field
           (obj [("title", str "Change header brand color")]%string)
           ["title"]%string "why"%string ["scope"; "dod"]%string).
  - reflexivity.
  - constructor; [reflexivity | constructor].
  - reflexivity.
Defined.

(** The sample ticket for [./f.ts ]. *)
Lemma parseTicket_Ok_witness :
  let ticket := loaded ["./f.ts "]%string in
  let doc := {| title := str "Change header brand color to purple";
                why := str "Visual smoke";
                dod := VArray [str "Header link class uses text-purple-500"];
                scope := [js "f.ts"];
                guardrails := VUndefined;
                safe_replace := VUndefined |} in
  Value.isObject ticket = true
  ∧ title doc = Value.get ticket "title"
  ∧ why doc = Value.get ticket "why"
  ∧ dod doc = Value.get ticket "dod"
  ∧ Value.truthy (title doc) = true
  ∧ Value.truthy (why doc) = true
  ∧ Value.truthy (dod doc) = true
  ∧ (∃ entries,
       Value.get ticket "scope" = VArray entries
       ∧ entries ≠ []
       ∧ Forall2 (λ entry scopePath, normalizeScopeEntry entry = Ok scopePath)
           entries (scope doc))
  ∧ guardrails doc = Value.get ticket "guardrails"
  ∧ (Value.truthy (guardrails doc) = true → ∃ l, guardrails doc = VArray l)
  ∧ safe_replace doc = Value.get ticket "safe_replace".
Proof.
  intros ticket doc.
  apply (parseTicket_Ok ticket doc).
  vm_compute. reflexivity.
Defined.

(** A base branch that holds [f.ts] and nothing else. *)
Lemma fetchScopeFiles_Ok_witness :
  let getContent := λ p : jsstring,
    if JS.streq p (js "f.ts")
    then FileData (js "aGVsbG8h") (js "base64") (js "3b18e5")
    else Rejected 404 in
  let files := [scopeFile "f.ts" "hello!"] in
  map sf_path files = [js "f.ts"]
  ∧ Forall (λ scopePath, JS.endsWith scopePath Path.slash = false)
      [js "f.ts"]
  ∧ Forall (λ file,
              ∃ content,
                getContent (sf_path file)
                = FileData content (js "base64") (sf_sha file)
                ∧ sf_content file
                  = Buffer.toUtf8 (Buffer.fromBase64 content)) files.
Proof.
  intros getContent files.
  apply (fetchScopeFiles_Ok getContent [js "f.ts"] files).
  vm_compute. reflexivity.
Defined.

(** A scope with the directory [src/], on a base branch that has a file
    for every path. *)
Lemma fetchScopeFiles_directory_witness :
  ∃ e, fetchScopeFiles
         (λ _, FileData (js "aGVsbG8h") (js "base64") (js "3b18e5"))
         [js "f.ts"; js "src/"] = inl e.
Proof.
  apply (fetchScopeFiles_directory
           (λ _, FileData (js "aGVsbG8h") (js "base64") (js "3b18e5"))
           [js "f.ts"; js "src/"] (js "src/")).
  - apply list_elem_of_In. simpl. auto.
  - reflexivity.
Defined.

(** The sample ticket for the directory [src/app/]. *)
Lemma declared_directory_is_never_fetched_witness :
  ∃ err,
    fetchScopeFiles
      (λ _, FileData (js "aGVsbG8h") (js "base64") (js "3b18e5"))
      [js "src/app/"] = inl err.
Proof.
  apply (declared_directory_is_never_fetched
           (λ _, FileData (js "aGVsbG8h") (js "base64") (js "3b18e5"))
           (loaded ["src/app/"]%string)
           {| title := str "Change header brand color to purple";
              why := str "Visual smoke";
              dod := VArray [str "Header link class uses text-purple-500"];
              scope := [js "src/app/"];
              guardrails := VUndefined;
              safe_replace := VUndefined |}
           [str "src/app/"] (js "src/app/")).
  - vm_compute. reflexivity.
  - reflexivity.
  - apply list_elem_of_In. simpl. auto.
  - reflexivity.
Defined.

(** Two fetched files whose paths normalize to [f.ts]. *)
Lemma scopeMapOf_lookup_witness :
  let files := [scopeFile "./f.ts" "one"; scopeFile "f.ts" "two"] in
  let file := scopeFile "./f.ts" "one" in
  ∃ found,
    scopeMapOf files !! Path.normalize (sf_path file) = Some found
    ∧ found ∈ files
    ∧ Path.normalize (sf_path found) = Path.normalize (sf_path file).
Proof.
  intros files file.
  apply (scopeMapOf_lookup files file).
  apply list_elem_of_In. simpl. auto.
Defined.

(** The edit of [f.ts] to [hello!]. *)
Lemma validated_edit_keeps_text_witness :
  let c := js "hello!" in
  let candidate := {| path := js "f.ts";
                      contents := js "hello!";
                      base64 := js "aGVsbG8h" |} in
  path candidate = Path.normalize (JS.stripDotSlash (js "f.ts"))
  ∧ base64 candidate = Buffer.toBase64 (Buffer.fromUtf8 c)
  ∧ contents candidate = Buffer.toUtf8 (Buffer.fromUtf8 c)
  ∧ Buffer.fromUtf8 (contents candidate) = Buffer.fromUtf8 c
  ∧ (Forall (λ u, u < 0xD800 ∨ 0xE000 ≤ u < 0x10000) c →
     contents candidate = c).
Proof.
  intros c candidate.
  apply (validated_edit_keeps_text [js "f.ts"] (js "f.ts") c candidate).
  - units.
  - vm_compute. reflexivity.
Defined.

(** One file of the scope and one beside it. *)
Lemma commitFiles_requests_witness :
  let candidates := [{| path := js "f.ts";
                        contents := js "hello!";
                        base64 := js "aGVsbG8h" |};
                     {| path := js "f.ts/g.ts";
                        contents := js "hello!";
                        base64 := js "aGVsbG8h" |}] in
  let scopeFiles := [scopeFile "f.ts" "text"] in
  Forall2 (λ file request,
             cr_path request = path file
             ∧ cr_message request
               = js "shipyard: "
                 ++ JS.join (js ", ") (map path candidates)
             ∧ Buffer.fromBase64 (cr_content request)
               = Buffer.fromUtf8 (contents file)
             ∧ (is_Some (cr_sha request)
                ↔ path file ∈ map sf_path scopeFiles)
             ∧ (∀ sha, cr_sha request = Some sha →
                       ∃ scopeFile, scopeFile ∈ scopeFiles
                                    ∧ sf_path scopeFile = path file
                                    ∧ sf_sha scopeFile = sha))
    candidates (commitFiles candidates scopeFiles).
Proof.
  intros candidates scopeFiles.
  apply (commitFiles_requests candidates scopeFiles).
  constructor; [units|]. constructor; [units|]. constructor.
Defined.

(** The same two files after a fetch of the scope [f.ts]. *)
Lemma commit_token_for_scope_entries_witness :
  let getContent := λ p : jsstring,
    if JS.streq p (js "f.ts")
    then FileData (js "dGV4dA==") (js "base64") (js "3b18e5")
    else Rejected 404 in
  let candidates := [{| path := js "f.ts";
                        contents := js "hello!";
                        base64 := js "aGVsbG8h" |};
                     {| path := js "f.ts/g.ts";
                        contents := js "hello!";
                        base64 := js "aGVsbG8h" |}] in
  Forall2 (λ file request,
             is_Some (cr_sha request) ↔ path file ∈ [js "f.ts"])
    candidates (commitFiles candidates [scopeFile "f.ts" "text"]).
Proof.
  intros getContent candidates.
  apply (commit_token_for_scope_entries getContent [js "f.ts"]
           [scopeFile "f.ts" "text"] candidates).
  vm_compute. reflexivity.
Defined.

(** An entry for [src/../f.ts] comes back as [f.ts]. *)
Lemma validateModelFiles_no_traversal_witness :
  let candidates := [{| path := js "f.ts";
                        contents := js "hello!";
                        base64 := js "aGVsbG8h" |}] in
  Forall (λ candidate,
            (path candidate = Path.dotdot ∧ Path.dotdot ∈ [js "f.ts"])
            ∨ Path.dotdot ∉ JS.split (path candidate) Path.slash)
    candidates.
Proof.
  intros candidates.
  apply (validateModelFiles_no_traversal
           (VArray [modelFile "src/../f.ts" "aGVsbG8h"]) [js "f.ts"]
           candidates).
  vm_compute. reflexivity.
Defined.

(** A scope with the parent path and a path through it. *)
Lemma parseTicket_scope_traversal_witness :
  Forall (λ scopePath,
            scopePath = js ".." ∨ scopePath = js "../"
            ∨ Path.dotdot ∉ JS.split scopePath Path.slash)
    [js ".."; js "f.ts"].
Proof.
  apply (parseTicket_scope_traversal
           (loaded [".."; "src/../f.ts"]%string)
           {| title := str "Change header brand color to purple";
              why := str "Visual smoke";
              dod := VArray [str "Header link class uses text-purple-500"];
              scope := [js ".."; js "f.ts"];
              guardrails := VUndefined;
              safe_replace := VUndefined |}).
  vm_compute. reflexivity.
Defined.

(** The sample ticket with an empty [safe_replace] list goes to the
    generative source. *)
Lemma run_never_asks_for_replacements_witness :
  run (λ _ _, Err NoFilesError) true (ticket []) [scopeFile "f.ts" "text"]
  ≠ Aborted NoReplacementsError.
Proof.
  apply (run_never_asks_for_replacements (λ _ _, Err NoFilesError) true
           (ticket []) [scopeFile "f.ts" "text"]).
  intros t s. discriminate.
Defined.

End FurtherWitnesses.
